(** * Guest agent: service lifecycle, configuration loading and the
      metadata reconciliation loop

    A shallow embedding of the Go sources of the guest agent:

    - [service.go], [service_unix.go], [service_windows.go] (package
      [service]): module [Service];
    - [parseConfig] of the main package together with the data-source
      loader of the go-ini library it calls: module [Ini];
    - [runUpdate] and [runAgent] of the main package: module [Agent].

    Go values are represented as follows.  A pointer that may be [nil] is
    an [option]; a Go [error] is an [option] of its message; a goroutine
    is a thread of an interleaving machine driven by a list of scheduling
    choices, so that a statement quantified over all such lists speaks
    about every execution. *)

From stdpp Require Import base strings list gmap pretty.

Open Scope Z_scope.

(** A Go [error] value: its message. [None] is the [nil] error. *)
Definition error : Type := string.

(* ===================================================================== *)
(** * Package [service] *)
(* ===================================================================== *)

Module Service.

(** [type ServiceState int].  The constant block of [service.go] declares
    [serviceName] first, then [StateRunning ServiceState = iota] and
    [StateStopped]; [iota] counts the constant specifications of the
    block, so [StateRunning] is 1 and [StateStopped] is 2. *)
Definition ServiceState : Type := Z.

Definition serviceName : string := "google_guest_agent".
Definition StateRunning : ServiceState := 1.
Definition StateStopped : ServiceState := 2.

(** The status record of the Windows service library, restricted to the
    fields the handler fills in. *)
Inductive svcState := StartPending | StopPending | Running.

Definition AcceptStop : Z := 1.
Definition AcceptShutdown : Z := 4.

Record svcStatus := { State : svcState; Accepts : Z }.

(** What a handler does to the service manager: [run.Quiet(ctx, name,
    args...)], [svc.Run(name, handler)], [statusChannel <- st]. *)
Inductive interaction :=
  | Exec (name : string) (args : list string)
  | SvcRun (name : string)
  | Send (st : svcStatus).

(** How a call ends: it returns an error value, or it never returns
    (a send on a [nil] channel blocks forever). *)
Inductive outcome :=
  | Returns (e : option error)
  | Blocks.

Record result (H : Type) := Result {
  ret : outcome;
  after : H;
  acts : list interaction
}.
Arguments Result {H} _ _ _.
Arguments ret {H} _.
Arguments after {H} _.
Arguments acts {H} _.

(** [serviceHandler] is the OS specific implementation interface. *)
Class serviceHandler (H : Type) := { Register : H -> result H;
  SetState : H -> ServiceState -> result H }.

(** [fmt.Errorf("unknown service state: %d", state)] *)
Definition unknown_state (state : ServiceState) : error :=
  "unknown service state: " +:+ pretty state.

(** [Manager] is the front interface between the main goroutine and the
    OS specific implementation. *)
Record Manager (H : Type) := { handler : H }.
Arguments handler {H} _.

(** ** [service_unix.go] *)
Module Unix.

(** The process environment. [os.Getenv] gives the empty string for a
    variable that is not set. *)
Definition Getenv (env : gmap string string) (k : string) : string :=
  default "" (env !! k).

Record systemdService := {
  (* [doneChan] is not used by the methods below *)
  systemdContext : bool
}.

Definition newServiceHandler (env : gmap string string) : systemdService :=
  {| systemdContext := negb (String.eqb (Getenv env "NOTIFY_SOCKET") "") |}.

Section Systemd.

(** [run.Quiet] executes a command and gives its error; the package is
    not part of the sources read here, so the result of a command is a
    parameter. *)
Variable run_Quiet : string -> list string -> option error.

Definition quiet (ss : systemdService) (name : string) (args : list string)
  : result systemdService :=
  Result (Returns (run_Quiet name args)) ss [Exec name args].

Definition systemd_Register (ss : systemdService) : result systemdService :=
  if negb (systemdContext ss) then Result (Returns None) ss []
  else quiet ss "systemd-notify" ["--status='Initializing service...'"].

Definition systemd_SetState (ss : systemdService) (state : ServiceState)
  : result systemdService :=
  if negb (systemdContext ss) then Result (Returns None) ss []
  else if decide (state = StateRunning) then
    quiet ss "systemd-notify" ["--ready"; "--status='Running service...'"]
  else if decide (state = StateStopped) then
    quiet ss "systemd-notify" ["--status='Stopping service...'"]
  else Result (Returns (Some (unknown_state state))) ss [].

Definition systemd_handler : serviceHandler systemdService :=
  {| Register := systemd_Register; SetState := systemd_SetState |}.

End Systemd.

(** [service.New] *)
Definition New (env : gmap string string) : Manager systemdService :=
  {| handler := newServiceHandler env |}.

End Unix.

(** ** [service_windows.go] *)
Module Windows.

Record winService := {
  (* [doneChan] is not used by [Register] and [SetState] *)
  statusChannel : bool;      (* false: the channel is nil *)
  initialized : bool
}.

Definition newServiceHandler : winService :=
  {| statusChannel := false; initialized := false |}.

(** [wh.statusChannel <- st], followed by [k]. *)
Definition send (wh : winService) (st : svcStatus) (k : result winService)
  : result winService :=
  if statusChannel wh then Result (ret k) (after k) (Send st :: acts k)
  else Result Blocks wh [].

(** [Execute] stores the channel and reports [StartPending]. *)
Definition Execute (wh : winService) : winService * list interaction :=
  ({| statusChannel := true; initialized := initialized wh |},
   [Send {| State := StartPending; Accepts := 0 |}]).

Section Scm.

(** [svc.Run] belongs to the Windows service library.  Its two
    observable results are parameters: whether the service control
    dispatcher called [Execute] back (which stores the status channel
    in the handler), and the error it returned. *)
Variable svc_Run_executes : bool.
Variable svc_Run_error : option error.

Definition win_Register (wh : winService) : result winService :=
  if initialized wh then Result (Returns None) wh []
  else
    let '(wh1, sent) :=
      if svc_Run_executes then Execute wh else (wh, []) in
    match svc_Run_error with
    | Some e =>
        Result (Returns (Some ("failed to register windows service: " +:+ e)))
               wh1 (SvcRun serviceName :: sent)
    | None =>
        Result (Returns None)
               {| statusChannel := statusChannel wh1; initialized := true |}
               (SvcRun serviceName :: sent)
    end.

(** In the source the two branches that send a status reach the end of
    the function without a [return]; they are taken to give the [nil]
    error. *)
Definition win_SetState (wh : winService) (state : ServiceState)
  : result winService :=
  if decide (state = StateRunning) then
    send wh {| State := Running; Accepts := Z.lor AcceptStop AcceptShutdown |}
         (Result (Returns None) wh [])
  else if decide (state = StateStopped) then
    send wh {| State := StopPending; Accepts := 0 |}
         (Result (Returns None) wh [])
  else Result (Returns (Some (unknown_state state))) wh [].

Definition win_handler : serviceHandler winService :=
  {| Register := win_Register; SetState := win_SetState |}.

End Scm.

(** [service.New] *)
Definition New : Manager winService := {| handler := newServiceHandler |}.

End Windows.

(** ** [service.go]: the front end used by the main goroutine *)
Definition Manager_Register {H} (I : serviceHandler H) (mn : Manager H)
  : result H :=
  Register (handler mn).

Definition Manager_SetState {H} (I : serviceHandler H) (mn : Manager H)
  (state : ServiceState) : result H :=
  SetState (handler mn) state.

(** A sequence of [SetState] calls on one manager, each on the handler
    the previous call left; a call that blocks ends the sequence. *)
Fixpoint SetStates {H} (I : serviceHandler H) (mn : Manager H)
  (states : list ServiceState) : list outcome :=
  match states with
  | [] => []
  | s :: rest =>
      let r := Manager_SetState I mn s in
      ret r :: match ret r with
               | Returns _ => SetStates I {| handler := after r |} rest
               | Blocks => []
               end
  end.

End Service.

(* ===================================================================== *)
(** * Configuration loading *)
(* ===================================================================== *)

Module Ini.

(** ** The part of go-ini that [parseConfig] relies on

    go-ini is a third-party library.  [ini.LoadSources] is modelled after
    its documented behaviour: the data sources are read one after the
    other into the same [File]; creating a key that the file already has
    replaces its value, so a later source overwrites what an earlier one
    set; with [Loose] a source that does not exist is skipped, without it
    the load fails; a source that does not parse fails the load; with
    [Insensitive] section and key names are lowercased. *)

Record LoadOptions := { Loose : bool; Insensitive : bool }.

(** What is found at a path: text that does not parse, or the
    (section, key, value) triples of the file, in the order of its
    lines. *)
Inductive content :=
  | Malformed
  | Entries (kvs : list (string * string * string)).

Inductive loadError :=
  | ErrNotExist (path : string)
  | ErrParse (path : string).

(** [os.IsNotExist] *)
Definition IsNotExist (e : loadError) : bool :=
  match e with ErrNotExist _ => true | ErrParse _ => false end.

Definition lower (c : Ascii.ascii) : Ascii.ascii :=
  let n := Ascii.N_of_ascii c in
  if ((65 <=? n)%N && (n <=? 90)%N)%bool then Ascii.ascii_of_N (n + 32) else c.

(** [strings.ToLower] on ASCII text. *)
Fixpoint ToLower (s : string) : string :=
  match s with
  | EmptyString => EmptyString
  | String c r => String (lower c) (ToLower r)
  end.

(** An [ini.File]: the value of each (section, key). *)
Abbreviation File := (gmap (string * string) string).

Definition name (opts : LoadOptions) (s : string) : string :=
  if Insensitive opts then ToLower s else s.

(** [Section.NewKey]: the key is created, or its value replaced. *)
Definition NewKey (opts : LoadOptions) (f : File)
  (e : string * string * string) : File :=
  let '(sec, key, val) := e in <[(name opts sec, name opts key) := val]> f.

Definition parse (opts : LoadOptions) (f : File)
  (kvs : list (string * string * string)) : File :=
  foldl (NewKey opts) f kvs.

(** [File.Reload]: the loop over the data sources. *)
Fixpoint reload (opts : LoadOptions) (fs : gmap string content)
  (sources : list string) (f : File) : loadError + File :=
  match sources with
  | [] => inr f
  | s :: rest =>
      match fs !! s with
      | None => if Loose opts then reload opts fs rest f else inl (ErrNotExist s)
      | Some Malformed => inl (ErrParse s)
      | Some (Entries kvs) => reload opts fs rest (parse opts f kvs)
      end
  end.

Definition LoadSources (opts : LoadOptions) (source : string)
  (others : list string) (fs : gmap string content) : loadError + File :=
  reload opts fs (source :: others) ∅.

(** ** [parseConfig] of the main package *)
Definition parseConfig (file : string) (fs : gmap string content)
  : loadError + File :=
  match
    LoadSources {| Loose := true; Insensitive := true |}
                file [file +:+ ".distro"; file +:+ ".template"] fs
  with
  | inl err => inl err
  | inr cfg => inr cfg
  end.

(** The precedence the comment of [parseConfig] announces
    ("Priority: file.cfg, file.cfg.distro, file.cfg.template"): the first
    of the three files that has the key decides. *)
Definition announced (base distro template : File) (k : string * string)
  : option string :=
  match base !! k with
  | Some v => Some v
  | None => match distro !! k with
            | Some v => Some v
            | None => template !! k
            end
  end.

(** The precedence [parseConfig] has: the last file that has the key
    decides. *)
Definition effective (base distro template : File) (k : string * string)
  : option string :=
  match template !! k with
  | Some v => Some v
  | None => match distro !! k with
            | Some v => Some v
            | None => base !! k
            end
  end.

End Ini.

(* ===================================================================== *)
(** * The main package: [runUpdate] and [runAgent] *)
(* ===================================================================== *)

Module Agent.

(** The managers [runUpdate] puts in its list. *)
Inductive mgrKind :=
  | addressMgr
  | wsfcManager
  | winAccountsMgr
  | diagnosticsMgr
  | clockskewMgr
  | osloginMgr
  | accountsMgr.

#[export] Instance mgrKind_eq_dec : EqDecision mgrKind.
Proof. solve_decision. Defined.

(** The list [mgrs] of [runUpdate], as the [switch runtime.GOOS] builds
    it. *)
Definition platform_mgrs (goos : string) : list mgrKind :=
  [addressMgr] ++
  (if decide (goos = "windows")
   then [wsfcManager; winAccountsMgr; diagnosticsMgr]
   else [clockskewMgr; osloginMgr; accountsMgr]).

(** Messages [runUpdate] logs. *)
Inductive logmsg :=
  | LogDisabledSkipping
  | LogNoDiff
  | LogRunning
  | LogErrorRunning (err : error).

(** What the goroutine of one manager has done so far: the methods it
    called with their results, the lines it logged, and the deferred
    [wg.Done()]. *)
Inductive call :=
  | CallDisabled (platform : string) (r : bool)
  | CallTimeout (r : bool)
  | CallDiff (r : bool)
  | CallSet (r : option error)
  | Log (m : logmsg)
  | WgDone.

(** Where the goroutine of one manager stands. *)
Inductive taskpc :=
  | AtDisabled
  | AtTimeout
  | AtDiff
  | AtSet
  | AtDefer
  | Finished.

Record task := { pc : taskpc; hist : list call }.

(** Where [runUpdate] itself stands: in the [for] loop about to launch
    the manager of index [k], in [wg.Wait()], or returned. *)
Inductive mainpc :=
  | Spawning (k : nat)
  | Waiting
  | Returned.

(** One call of [runUpdate]: the counter of the wait group, the position
    of the caller and the goroutines launched so far ([tasks !! i] runs
    the manager of index [i]). *)
Record pass := { wg : Z; main : mainpc; tasks : list task }.

(** A thread of one call of [runUpdate]. *)
Inductive tid :=
  | Main
  | Task (i : nat).

#[export] Instance logmsg_eq_dec : EqDecision logmsg.
Proof. solve_decision. Defined.

#[export] Instance call_eq_dec : EqDecision call.
Proof. solve_decision. Defined.

#[export] Instance taskpc_eq_dec : EqDecision taskpc.
Proof. solve_decision. Defined.

#[export] Instance mainpc_eq_dec : EqDecision mainpc.
Proof. solve_decision. Defined.

Definition runUpdate_entry : pass :=
  {| wg := 0; main := Spawning 0; tasks := [] |}.

Definition finished (t : task) : bool :=
  match pc t with Finished => true | _ => false end.

(** The number of goroutines that have not yet run [wg.Done()]. *)
Definition pending (ts : list task) : Z :=
  foldr (fun t n => (if finished t then 0 else 1) + n) 0 ts.

(** The line logged after [set] returned. *)
Definition set_log (r : option error) : list call :=
  match r with
  | Some e => [Log (LogErrorRunning e)]
  | None => []
  end.

Section Machine.

(** [metadata.Descriptor] and the state of the host that managers read
    and change. *)
Variables (Descriptor OS : Type).

(** The package-level variables of the main package that managers read:
    the two snapshots, which the handler assigns, and the configuration,
    which [runAgent] loads once. *)
Record Globals := {
  oldMetadata : option Descriptor;
  newMetadata : option Descriptor;
  config : option (gmap (string * string) string)
}.

(** Modelled from the spec: the manager implementations are not among the
    sources read here.  A manager is the four methods of the [manager]
    interface; each reads the package-level variables and reads and
    changes the host ("[oldMetadata] is only read by managers", "written
    by exactly one path (the event handler)"). *)
Record manager := {
  diff : Globals -> OS -> bool * OS;
  disabled : string -> Globals -> OS -> bool * OS;
  set : Globals -> OS -> option error * OS;
  timeout : Globals -> OS -> bool * OS
}.

(** [runtime.GOOS], and the behaviour of each manager of the list. *)
Variable goos : string.
Variable mgrs : list manager.

Definition record_calls (t : task) (next : taskpc) (cs : list call) : task :=
  {| pc := next; hist := hist t ++ cs |}.

(** One step of the goroutine body
<<
    defer wg.Done()
    if mgr.disabled(runtime.GOOS) { log; return }
    if !mgr.timeout() && !mgr.diff() { log; return }
    log
    if err := mgr.set(ctx); err != nil { log }
>>
    A step is one method call together with the logging and branching
    that follows it. *)
Definition task_step (m : manager) (g : Globals) (t : task) (os : OS)
  : option (task * OS) :=
  match pc t with
  | AtDisabled =>
      let '(r, os') := disabled m goos g os in
      Some (if r
            then record_calls t AtDefer
                   [CallDisabled goos true; Log LogDisabledSkipping]
            else record_calls t AtTimeout [CallDisabled goos false], os')
  | AtTimeout =>
      let '(r, os') := timeout m g os in
      Some (record_calls t (if r then AtSet else AtDiff) [CallTimeout r], os')
  | AtDiff =>
      let '(r, os') := diff m g os in
      Some (if r
            then record_calls t AtSet [CallDiff true]
            else record_calls t AtDefer [CallDiff false; Log LogNoDiff], os')
  | AtSet =>
      let '(r, os') := set m g os in
      Some (record_calls t AtDefer (Log LogRunning :: CallSet r :: set_log r),
            os')
  | AtDefer => Some (record_calls t Finished [WgDone], os)
  | Finished => None
  end.

(** One step of one thread of a call of [runUpdate].  [None]: the thread
    cannot move (it has ended, it does not exist, or it is blocked in
    [wg.Wait()]). *)
Definition step (g : Globals) (th : tid) (p : pass) (os : OS)
  : option (pass * OS) :=
  match th with
  | Main =>
      match main p with
      | Spawning k =>
          match mgrs !! k with
          | Some _ =>
              (* wg.Add(1); go func(mgr manager) {...}(mgr) *)
              Some ({| wg := wg p + 1; main := Spawning (S k);
                       tasks := tasks p ++ [{| pc := AtDisabled; hist := [] |}] |},
                    os)
          | None => Some ({| wg := wg p; main := Waiting; tasks := tasks p |}, os)
          end
      | Waiting =>
          if decide (wg p = 0)
          then Some ({| wg := wg p; main := Returned; tasks := tasks p |}, os)
          else None
      | Returned => None
      end
  | Task i =>
      match mgrs !! i, tasks p !! i with
      | Some m, Some t =>
          match task_step m g t os with
          | Some (t', os') =>
              Some ({| wg := if finished t' then wg p - 1 else wg p;
                       main := main p;
                       tasks := <[i := t']> (tasks p) |}, os')
          | None => None
          end
      | _, _ => None
      end
  end.

(** ** Executions of one call of [runUpdate]

    A choice lets one thread move, or lets the rest of the process change
    the package-level variables and the host between two steps. A choice
    of a thread that cannot move leaves everything as it is. *)
Inductive choice :=
  | Sched (th : tid)
  | Interfere (g : Globals) (os : OS).

(** A call of [runUpdate] inside the process: the call, the package-level
    variables and the host. *)
Record running := { c_pass : pass; c_globals : Globals; c_os : OS }.

Definition exec1 (cf : running) (c : choice) : running :=
  match c with
  | Sched th =>
      match step (c_globals cf) th (c_pass cf) (c_os cf) with
      | Some (p, os) => {| c_pass := p; c_globals := c_globals cf; c_os := os |}
      | None => cf
      end
  | Interfere g os => {| c_pass := c_pass cf; c_globals := g; c_os := os |}
  end.

Definition exec (cs : list choice) (cf : running) : running :=
  foldl exec1 cf cs.

Definition runUpdate (g : Globals) (os : OS) : running :=
  {| c_pass := runUpdate_entry; c_globals := g; c_os := os |}.

(** A schedule that runs every thread to its end in turn: the loop, each
    goroutine, then [wg.Wait()]. *)
Definition in_turn : list choice :=
  repeat (Sched Main) (S (length mgrs)) ++
  flat_map (fun i => repeat (Sched (Task i)) 5) (seq 0 (length mgrs)) ++
  [Sched Main].

(** ** What the history of a goroutine looks like at each position *)

Definition before_set (h : list call) : Prop :=
  h = [CallDisabled goos false; CallTimeout true] \/
  h = [CallDisabled goos false; CallTimeout false; CallDiff true].

Definition after_body (h : list call) : Prop :=
  h = [CallDisabled goos true; Log LogDisabledSkipping] \/
  h = [CallDisabled goos false; CallTimeout false; CallDiff false;
       Log LogNoDiff] \/
  exists h0 r, before_set h0 /\
    h = h0 ++ Log LogRunning :: CallSet r :: set_log r.

Definition task_ok (t : task) : Prop :=
  match pc t with
  | AtDisabled => hist t = []
  | AtTimeout => hist t = [CallDisabled goos false]
  | AtDiff => hist t = [CallDisabled goos false; CallTimeout false]
  | AtSet => before_set (hist t)
  | AtDefer => after_body (hist t)
  | Finished => exists h, after_body h /\ hist t = h ++ [WgDone]
  end.

(** The invariant of a call of [runUpdate]. *)
Definition pass_ok (p : pass) : Prop :=
  wg p = pending (tasks p) /\
  Forall task_ok (tasks p) /\
  match main p with
  | Spawning k => length (tasks p) = k /\ (k <= length mgrs)%nat
  | Waiting => length (tasks p) = length mgrs
  | Returned => length (tasks p) = length mgrs /\ wg p = 0
  end.

(** The goroutine called [set]. *)
Definition invoked_set (t : task) : Prop :=
  exists r, CallSet r ∈ hist t.

(** The goroutine found its manager not disabled, and [timeout()] or
    [diff()] returned true. *)
Definition eligible (t : task) : Prop :=
  CallDisabled goos false ∈ hist t /\
  (CallTimeout true ∈ hist t \/ CallDiff true ∈ hist t).

(** Every result in the history is a result the method of the manager
    gave. *)
Definition sound (m : manager) (t : task) : Prop :=
  (forall r, CallDisabled goos r ∈ hist t ->
     exists g os, (disabled m goos g os).1 = r) /\
  (forall r, CallTimeout r ∈ hist t -> exists g os, (timeout m g os).1 = r) /\
  (forall r, CallDiff r ∈ hist t -> exists g os, (diff m g os).1 = r) /\
  (forall r, CallSet r ∈ hist t -> exists g os, (set m g os).1 = r).

Definition pass_sound (p : pass) : Prop :=
  forall i m t, mgrs !! i = Some m -> tasks p !! i = Some t -> sound m t.

(** The steps a thread still has to make, at most. *)
Definition task_fuel (t : task) : nat :=
  match pc t with
  | AtDisabled => 5
  | AtTimeout => 4
  | AtDiff => 3
  | AtSet => 2
  | AtDefer => 1
  | Finished => 0
  end.

Definition tasks_fuel (ts : list task) : nat :=
  foldr (fun t n => (task_fuel t + n)%nat) 0%nat ts.

Definition fuel (p : pass) : nat :=
  (match main p with
   | Spawning k => 2 + 6 * (length mgrs - k)
   | Waiting => 1
   | Returned => 0
   end + tasks_fuel (tasks p))%nat.

End Machine.

Arguments oldMetadata {Descriptor} _.
Arguments newMetadata {Descriptor} _.
Arguments config {Descriptor} _.
Arguments diff {Descriptor OS} _ _ _.
Arguments disabled {Descriptor OS} _ _ _ _.
Arguments set {Descriptor OS} _ _ _.
Arguments timeout {Descriptor OS} _ _ _.
Arguments task_step {Descriptor OS} _ _ _ _ _.
Arguments step {Descriptor OS} _ _ _ _ _ _.
Arguments Sched {Descriptor OS} _.
Arguments Interfere {Descriptor OS} _ _.
Arguments c_pass {Descriptor OS} _.
Arguments c_globals {Descriptor OS} _.
Arguments c_os {Descriptor OS} _.
Arguments exec1 {Descriptor OS} _ _ _ _.
Arguments exec {Descriptor OS} _ _ _ _.
Arguments runUpdate {Descriptor OS} _ _.
Arguments in_turn {Descriptor OS} _.
Arguments pass_ok {Descriptor OS} _ _ _.
Arguments pass_sound {Descriptor OS} _ _ _.
Arguments sound {Descriptor OS} _ _ _.
Arguments fuel {Descriptor OS} _ _.

(** ** The handler of the metadata long-poll event *)

Section Handler.

Variables (Descriptor OS : Type).
Variable goos : string.

(** The behaviour of each manager of the list of [runUpdate]. *)
Variable impl : mgrKind -> manager Descriptor OS.

Definition managers : list (manager Descriptor OS) :=
  impl <$> platform_mgrs goos.

(** Modelled from the spec: [events.EventData] is declared in the events
    package, which is not among the sources read here.  The payload of an
    event delivery "carries [{Error, Data}]": [Error] is set when the
    watcher failed, and [Data] is absent or is the snapshot the watcher
    delivers, which the handler obtains by a type
    assertion on [evData.Data]. *)
Record EventData := {
  Data : option Descriptor;
  Error : option error
}.

(** One call of the handler: entered with its payload, inside
    [runUpdate], or returned.  [keep] is the boolean it returned and
    [update] the call of [runUpdate] it made, if it made one. *)
Inductive handler_state :=
  | Called (evData : EventData)
  | InRunUpdate (p : pass)
  | HReturned (keep : bool) (update : option pass).

(** One step of a call of the handler
<<
    if evData.Error != nil { log; return true }
    if evData.Data == nil { log; return true }
    newMetadata = (the descriptor asserted from evData.Data)
    runUpdate(ctx)
    oldMetadata = newMetadata
    return true
>>
    The steps of [runUpdate] are those of its threads; the handler itself
    moves when thread [Main] is chosen at entry and after [runUpdate]
    returned. *)
Definition handler_step (g : Globals Descriptor) (os : OS) (th : tid)
  (hs : handler_state)
  : option (handler_state * Globals Descriptor * OS) :=
  match hs with
  | Called evData =>
      match th with
      | Main =>
          match Error evData with
          | Some _ => Some (HReturned true None, g, os)
          | None =>
              match Data evData with
              | None => Some (HReturned true None, g, os)
              | Some d =>
                  Some (InRunUpdate runUpdate_entry,
                        {| oldMetadata := oldMetadata g;
                           newMetadata := Some d;
                           config := config g |}, os)
              end
          end
      | Task _ => None
      end
  | InRunUpdate p =>
      match main p, th with
      | Returned, Main =>
          Some (HReturned true (Some p),
                {| oldMetadata := newMetadata g;
                   newMetadata := newMetadata g;
                   config := config g |}, os)
      | _, _ =>
          match step goos managers g th p os with
          | Some (p', os') => Some (InRunUpdate p', g, os')
          | None => None
          end
      end
  | HReturned _ _ => None
  end.

(** The agent once [runAgent] has subscribed the handler: the
    package-level variables, the host, the watchers of [eventsConfig] and
    the calls of the handler the event manager has made. *)
Record agent := {
  globals : Globals Descriptor;
  host : OS;
  watchers : list string;
  handlers : list handler_state
}.

(** What happens next: the event manager delivers an event (it calls the
    handler), or a thread of a call of the handler moves.  The event
    manager is not among the sources read here; a delivery may come at
    any time, also while an earlier call runs. *)
Inductive action :=
  | Deliver (evData : EventData)
  | Run (h : nat) (th : tid).

Definition agent_step (a : agent) (act : action) : agent :=
  match act with
  | Deliver evData =>
      {| globals := globals a; host := host a; watchers := watchers a;
         handlers := handlers a ++ [Called evData] |}
  | Run h th =>
      match handlers a !! h with
      | Some hs =>
          match handler_step (globals a) (host a) th hs with
          | Some (hs', g', os') =>
              {| globals := g'; host := os'; watchers := watchers a;
                 handlers := <[h := hs']> (handlers a) |}
          | None => a
          end
      | None => a
      end
  end.

Definition agent_run (acts : list action) (a : agent) : agent :=
  foldl agent_step a acts.

(** A call of [runUpdate] on the list of the platform, after the
    choices [cs]. *)
Definition runUpdate_after (cs : list (choice Descriptor OS))
  (g : Globals Descriptor) (os : OS) : running Descriptor OS :=
  exec goos managers cs (runUpdate g os).

(** All goroutines of a call of [runUpdate] have been launched and have
    ended. *)
Definition joined (p : pass) : Prop :=
  length (tasks p) = length managers /\
  Forall (fun t => pc t = Finished) (tasks p).

(** A call of the handler is inside [runUpdate]. *)
Definition in_update (hs : handler_state) : bool :=
  match hs with InRunUpdate _ => true | _ => false end.

(** The invariant of a call of the handler: its call of [runUpdate]
    satisfies [pass_ok], and has returned when the handler has. *)
Definition handler_ok (hs : handler_state) : Prop :=
  match hs with
  | Called _ => True
  | InRunUpdate p => pass_ok goos managers p
  | HReturned _ None => True
  | HReturned _ (Some p) => pass_ok goos managers p /\ main p = Returned
  end.

(** ** [runAgent] up to the subscription *)

(** [getOSLoginEnabled] and the two watcher identifiers are declared in
    files that are not among the sources read here. *)
Variable getOSLoginEnabled : option Descriptor -> bool * bool * bool.
Variables mdsEvent_WatcherID sshtrustedca_WatcherID : string.

(** [&metadata.Descriptor{}] *)
Variable emptyDescriptor : Descriptor.

(** What the collaborators of [runAgent] answer during start-up. *)
Record startup := {
  logger_Init : option error;
  files : gmap string Ini.content;
  agentInit : Globals Descriptor -> OS -> Globals Descriptor * OS;
  mdsClient_Get : option Descriptor * option error;
  events_New : option error
}.

Inductive startError :=
  | ErrLogger (e : error)
  | ErrConfig (cfgfile : string) (e : Ini.loadError)
  | ErrSetState (e : error)
  | ErrEventManager (e : error).

Inductive started :=
  | Fails (e : startError)
  | Hangs
  | Subscribed (a : agent).

Definition winConfigPath : string :=
  "C:\Program Files\Google\Compute Engine\instance_configs.cfg".
Definition configPath : string := "/etc/default/instance_configs.cfg".

(** [eventsConfig]: the metadata watcher, and the SSH trusted CA watcher
    if OS Login is enabled in [newMetadata]. *)
Definition eventsConfig (newMetadata : option Descriptor) : list string :=
  [mdsEvent_WatcherID] ++
  (if (getOSLoginEnabled newMetadata).1.1 then [sshtrustedca_WatcherID]
   else []).

(** [runAgent] from [agentInit] on.  The calls whose results [runAgent]
    does not use are left out: [osinfo.Get], [metadata.New], the second
    [logger.Init] (its error is only logged), [scheduler.ScheduleJobs]
    and [sshca.Init]. *)
Definition runAgent_init {H} (I : Service.serviceHandler H)
  (svc : Service.Manager H) (env : startup) (g0 : Globals Descriptor)
  (os0 : OS) : started :=
  let '(g1, os1) := agentInit env g0 os0 in
  match Service.ret (Service.Manager_SetState I svc Service.StateRunning) with
  | Service.Blocks => Hangs
  | Service.Returns (Some e) => Fails (ErrSetState e)
  | Service.Returns None =>
      let new1 :=
        match newMetadata g1 with
        | None => (mdsClient_Get env).1
        | Some d => Some d
        end in
      let ws := eventsConfig new1 in
      match events_New env with
      | Some e => Fails (ErrEventManager e)
      | None =>
          Subscribed {| globals := {| oldMetadata := Some emptyDescriptor;
                                      newMetadata := new1;
                                      config := config g1 |};
                        host := os1; watchers := ws; handlers := [] |}
      end
  end.

(** [runAgent] up to the call of [eventManager.Run]. *)
Definition runAgent_start {H} (I : Service.serviceHandler H)
  (svc : Service.Manager H) (env : startup) (g0 : Globals Descriptor)
  (os0 : OS) : started :=
  match logger_Init env with
  | Some e => Fails (ErrLogger e)
  | None =>
      let cfgfile :=
        if decide (goos = "windows") then winConfigPath else configPath in
      let loaded (cfg : option (gmap (string * string) string)) :=
        {| oldMetadata := oldMetadata g0; newMetadata := newMetadata g0;
           config := cfg |} in
      match Ini.parseConfig cfgfile (files env) with
      | inl err =>
          if negb (Ini.IsNotExist err) then Fails (ErrConfig cfgfile err)
          else runAgent_init I svc env (loaded None) os0
      | inr cfg => runAgent_init I svc env (loaded (Some cfg)) os0
      end
  end.

End Handler.

Arguments runUpdate_after {Descriptor OS} _ _ _ _ _.
Arguments handler_step {Descriptor OS} _ _ _ _ _ _.
Arguments agent_step {Descriptor OS} _ _ _ _.
Arguments agent_run {Descriptor OS} _ _ _ _.
Arguments joined {Descriptor OS} _ _ _.
Arguments handler_ok {Descriptor OS} _ _ _.
Arguments in_update {Descriptor} _.
Arguments Data {Descriptor} _.
Arguments Error {Descriptor} _.
Arguments Called {Descriptor} _.
Arguments InRunUpdate {Descriptor} _.
Arguments HReturned {Descriptor} _ _.
Arguments globals {Descriptor OS} _.
Arguments host {Descriptor OS} _.
Arguments watchers {Descriptor OS} _.
Arguments handlers {Descriptor OS} _.
Arguments Deliver {Descriptor} _.
Arguments Run {Descriptor} _ _.
Arguments Subscribed {Descriptor OS} _.
Arguments Fails {Descriptor OS} _.
Arguments Hangs {Descriptor OS}.

End Agent.

(* ===================================================================== *)
(** * The listeners of the Windows service *)
(* ===================================================================== *)

Module Listeners.
Import Service.

(** [svc.Cmd]: the commands [service_windows.go] names, and any other
    command of the service library. *)
Inductive svcCmd :=
  | Stop
  | Interrogate
  | Shutdown
  | OtherCmd (code : Z).

(** [svc.ChangeRequest], restricted to the fields the listeners read. *)
Record ChangeRequest := { Cmd : svcCmd; CurrentStatus : svcStatus }.

(** What a [select] of a listener received: a value from [doneChan], or
    a request of the service manager. *)
Inductive received :=
  | FromDone
  | FromRequest (req : ChangeRequest).

(** The outcome of a [select] that has a [default] case: one of its
    communications, or none was ready. *)
Inductive selected :=
  | Ready (r : received)
  | NothingReady.

(** What a listener does: [wh.statusChannel <- st], or
    [wh.doneChan <- true]. *)
Inductive effect :=
  | Reply (st : svcStatus)
  | SignalDone.

(** [handleInterrogate]: the boolean tells whether to renew.  A request
    that is not [svc.Interrogate] matches no case of the [switch] and
    reaches the final [return false]. *)
Definition handleInterrogate (s : selected) : bool * list effect :=
  match s with
  | Ready FromDone => (false, [])
  | Ready (FromRequest req) =>
      match Cmd req with
      | Interrogate => (true, [Reply (CurrentStatus req)])
      | _ => (false, [])
      end
  | NothingReady => (false, [])
  end.

(** [handleTermination]: its [select] has no [default], so it always
    receives. *)
Definition handleTermination (r : received) : bool * list effect :=
  match r with
  | FromDone => (false, [])
  | FromRequest req =>
      match Cmd req with
      | Stop | Shutdown => (false, [SignalDone])
      | _ => (true, [])
      end
  end.

(** The two goroutines of [Execute]
<<
    for renew := true; renew; { renew = wh.handleInterrogate(request) }
    for renew := true; renew; { renew = wh.handleTermination(request) }
>>
    as functions of what their successive [select]s deliver.  The result
    is what the loop did and, when the loop has ended, the deliveries it
    did not get to; [None] when it is still running. *)
Fixpoint interrogate_loop (obs : list selected)
  : list effect * option (list selected) :=
  match obs with
  | [] => ([], None)
  | s :: rest =>
      let '(renew, es) := handleInterrogate s in
      if renew
      then let '(es', r) := interrogate_loop rest in (es ++ es', r)
      else (es, Some rest)
  end.

Fixpoint termination_loop (obs : list received)
  : list effect * option (list received) :=
  match obs with
  | [] => ([], None)
  | r :: rest =>
      let '(renew, es) := handleTermination r in
      if renew
      then let '(es', k) := termination_loop rest in (es ++ es', k)
      else (es, Some rest)
  end.

Definition is_interrogate (s : selected) : bool :=
  match s with
  | Ready (FromRequest req) =>
      match Cmd req with Interrogate => true | _ => false end
  | _ => false
  end.

Definition is_stop (r : received) : bool :=
  match r with
  | FromRequest req =>
      match Cmd req with Stop | Shutdown => true | _ => false end
  | FromDone => false
  end.

(** A request that lets [handleTermination] renew. *)
Definition is_ignored (r : received) : bool :=
  match r with
  | FromRequest req =>
      match Cmd req with Stop | Shutdown => false | _ => true end
  | FromDone => false
  end.

(** The status an interrogate request asks to be echoed. *)
Definition echo (s : selected) : option effect :=
  match s with
  | Ready (FromRequest req) => Some (Reply (CurrentStatus req))
  | _ => None
  end.

End Listeners.

(* ===================================================================== *)
(** * Observations on executions *)
(* ===================================================================== *)

Module Observe.
Import Agent.

(** The entries of the file at a path, none if the file does not exist. *)
Definition entries_at (fs : gmap string Ini.content) (path : string)
  : list (string * string * string) :=
  match fs !! path with
  | Some (Ini.Entries kvs) => kvs
  | _ => []
  end.

Definition malformed (fs : gmap string Ini.content) (path : string) : Prop :=
  fs !! path = Some Ini.Malformed.

(** The three sources of [parseConfig], in the order it passes them. *)
Definition sources (file : string) : list string :=
  [file; file +:+ ".distro"; file +:+ ".template"].

(** The configuration file of the platform, as [runAgent] chooses it. *)
Definition config_file (goos : string) : string :=
  if decide (goos = "windows") then winConfigPath else configPath.

(** What a goroutine calls, without the results; log lines are not
    calls. *)
Inductive method :=
  | MDisabled
  | MTimeout
  | MDiff
  | MSet
  | MDone.

#[export] Instance method_eq_dec : EqDecision method.
Proof. solve_decision. Defined.

Definition method_of (c : call) : option method :=
  match c with
  | CallDisabled _ _ => Some MDisabled
  | CallTimeout _ => Some MTimeout
  | CallDiff _ => Some MDiff
  | CallSet _ => Some MSet
  | WgDone => Some MDone
  | Log _ => None
  end.

(** The calls of the body of the goroutine, in the order of the body. *)
Definition body : list method := [MDisabled; MTimeout; MDiff; MSet; MDone].

Section Runs.

Variables (Descriptor OS : Type).
Variable goos : string.
Variable mgrs : list (manager Descriptor OS).

(** The choice makes a thread take a step. *)
Definition moved (cf : running Descriptor OS) (c : choice Descriptor OS)
  : bool :=
  match c with
  | Sched th =>
      match step goos mgrs (c_globals cf) th (c_pass cf) (c_os cf) with
      | Some _ => true
      | None => false
      end
  | Interfere _ _ => false
  end.

(** The number of steps the threads take under the choices [cs]. *)
Fixpoint moves (cs : list (choice Descriptor OS)) (cf : running Descriptor OS)
  : nat :=
  match cs with
  | [] => 0%nat
  | c :: rest =>
      ((if moved cf c then 1 else 0) + moves rest (exec1 goos mgrs cf c))%nat
  end.

(** The events delivered by a list of actions, in order. *)
Definition deliveries (acts : list (action Descriptor))
  : list (EventData Descriptor) :=
  omap (fun act => match act with
                   | Deliver evData => Some evData
                   | Run _ _ => None
                   end) acts.

(** The snapshot the handler takes from an event: none when [Error] is
    set or [Data] is absent. *)
Definition snapshot (evData : EventData Descriptor) : option Descriptor :=
  match Error evData with
  | Some _ => None
  | None => Data evData
  end.

Definition accepted (acts : list (action Descriptor)) : list Descriptor :=
  omap snapshot (deliveries acts).

(** How far the call of the handler for an event may have got. *)
Definition follows (evData : EventData Descriptor)
  (hs : handler_state Descriptor) : Prop :=
  match hs with
  | Called evData' => evData' = evData
  | InRunUpdate _ => is_Some (snapshot evData)
  | HReturned keep (Some _) => keep = true /\ is_Some (snapshot evData)
  | HReturned keep None => keep = true /\ snapshot evData = None
  end.

(** The invariant behind the provenance of the snapshots: the handler
    calls follow the events [evs], the configuration is the one of [g0],
    and each snapshot variable is as in [g0] or holds a snapshot taken
    from one of the events, [newMetadata] certainly so while a call of
    the handler is inside [runUpdate]. *)
Definition from_events (g0 : Globals Descriptor)
  (evs : list (EventData Descriptor)) (a : agent Descriptor OS) : Prop :=
  Forall2 follows evs (handlers a) /\
  config (globals a) = config g0 /\
  (oldMetadata (globals a) = oldMetadata g0 \/
   exists d, oldMetadata (globals a) = Some d /\ d ∈ omap snapshot evs) /\
  (newMetadata (globals a) = newMetadata g0 \/
   exists d, newMetadata (globals a) = Some d /\ d ∈ omap snapshot evs) /\
  (Exists (fun hs => in_update hs = true) (handlers a) ->
   exists d, newMetadata (globals a) = Some d /\ d ∈ omap snapshot evs).

(** The package-level variables while the handler of an event that
    brings the snapshot [d] is at [hs], when no other call of the handler
    moves: as they were, then with the new snapshot in [newMetadata],
    then with it in both. *)
Definition alone (g0 : Globals Descriptor) (d : Descriptor)
  (hs : handler_state Descriptor) (g : Globals Descriptor) : Prop :=
  match hs with
  | Called _ => g = g0
  | InRunUpdate _ =>
      g = {| oldMetadata := oldMetadata g0; newMetadata := Some d;
             config := config g0 |}
  | HReturned _ _ =>
      g = {| oldMetadata := Some d; newMetadata := Some d;
             config := config g0 |}
  end.

End Runs.

Arguments from_events {Descriptor OS} _ _ _.
Arguments alone {Descriptor} _ _ _ _.
Arguments moved {Descriptor OS} _ _ _ _.
Arguments moves {Descriptor OS} _ _ _ _.
Arguments deliveries {Descriptor} _.
Arguments snapshot {Descriptor} _.
Arguments accepted {Descriptor} _.
Arguments follows {Descriptor} _ _.

End Observe.

(* ===================================================================== *)
(** * Concrete instances *)
(* ===================================================================== *)

Module Example.

(** Three configuration files that all set the same key. *)
Definition three_files : gmap string Ini.content :=
  {[ "/etc/default/instance_configs.cfg" :=
       Ini.Entries [("Accounts", "useradd_cmd", "from-file")];
     "/etc/default/instance_configs.cfg.distro" :=
       Ini.Entries [("Accounts", "useradd_cmd", "from-distro")];
     "/etc/default/instance_configs.cfg.template" :=
       Ini.Entries [("Accounts", "useradd_cmd", "from-template");
                    ("Daemons", "clock_skew_daemon", "true")] ]}.

Definition only_template : gmap string Ini.content :=
  {[ "/etc/default/instance_configs.cfg.template" :=
       Ini.Entries [("Accounts", "useradd_cmd", "from-template")] ]}.

Definition template_config : gmap (string * string) string :=
  {[ ("accounts", "useradd_cmd") := "from-template" ]}.

(** A process environment with and without the notify socket. *)
Definition under_systemd : gmap string string :=
  {[ "NOTIFY_SOCKET" := "/run/systemd/notify" ]}.
Definition standalone : gmap string string := {[ "HOME" := "/root" ]}.

(** [systemd-notify] succeeds. *)
Definition notify_ok (name : string) (args : list string) : option error :=
  None.

(** Managers over snapshots that are strings and a host that is the list
    of the changes made to it: the address manager acts on a changed
    snapshot, the clock skew and failover cluster managers ask to run
    every time and fail, the OS Login and Windows accounts managers are
    disabled, the others find nothing to do. *)
Definition on_diff : Agent.manager string (list string) :=
  {| Agent.diff := fun g os =>
       (bool_decide (Agent.oldMetadata g <> Agent.newMetadata g), os);
     Agent.disabled := fun _ _ os => (false, os);
     Agent.set := fun _ os => (None, os ++ ["address"]);
     Agent.timeout := fun _ os => (false, os) |}.

Definition always_failing : Agent.manager string (list string) :=
  {| Agent.diff := fun _ os => (false, os);
     Agent.disabled := fun _ _ os => (false, os);
     Agent.set := fun _ os => (Some "hwclock: permission denied", os);
     Agent.timeout := fun _ os => (true, os) |}.

Definition switched_off : Agent.manager string (list string) :=
  {| Agent.diff := fun _ os => (true, os);
     Agent.disabled := fun _ _ os => (true, os);
     Agent.set := fun _ os => (None, os ++ ["never"]);
     Agent.timeout := fun _ os => (true, os) |}.

Definition idle : Agent.manager string (list string) :=
  {| Agent.diff := fun _ os => (false, os);
     Agent.disabled := fun _ _ os => (false, os);
     Agent.set := fun _ os => (None, os ++ ["idle"]);
     Agent.timeout := fun _ os => (false, os) |}.

Definition impl (k : Agent.mgrKind) : Agent.manager string (list string) :=
  match k with
  | Agent.addressMgr => on_diff
  | Agent.clockskewMgr | Agent.wsfcManager => always_failing
  | Agent.osloginMgr | Agent.winAccountsMgr => switched_off
  | Agent.accountsMgr | Agent.diagnosticsMgr => idle
  end.

Definition before_first_event : Agent.Globals string :=
  {| Agent.oldMetadata := Some ""; Agent.newMetadata := Some "snapshot-1";
     Agent.config := Some template_config |}.

(** The agent on Linux right after the subscription, started without a
    snapshot. *)
Definition subscribed : Agent.agent string (list string) :=
  {| Agent.globals := {| Agent.oldMetadata := Some "";
                         Agent.newMetadata := None;
                         Agent.config := Some template_config |};
     Agent.host := []; Agent.watchers := ["metadata-watcher"];
     Agent.handlers := [] |}.

Definition snapshot_event (d : string) : Agent.EventData string :=
  {| Agent.Data := Some d; Agent.Error := None |}.
Definition failed_event : Agent.EventData string :=
  {| Agent.Data := Some "stale"; Agent.Error := Some "metadata: timeout" |}.
Definition empty_event : Agent.EventData string :=
  {| Agent.Data := None; Agent.Error := None |}.

(** The goroutines run one after the other. *)
Definition linux_in_turn : list (Agent.choice string (list string)) :=
  Agent.in_turn (Agent.managers string (list string) "linux" impl).

(** The four goroutines are launched, then take their steps in rounds,
    last launched first. *)
Definition rounds : list Agent.tid :=
  repeat Agent.Main 5 ++
  mjoin (repeat [Agent.Task 3; Agent.Task 2; Agent.Task 1; Agent.Task 0] 5) ++
  [Agent.Main].

Definition linux_rounds : list (Agent.choice string (list string)) :=
  Agent.Sched <$> rounds.

(** The first event brings a snapshot; its handler runs to the end. *)
Definition first_event : list (Agent.action string) :=
  [Agent.Deliver (snapshot_event "snapshot-1"); Agent.Run 0 Agent.Main] ++
  (Agent.Run 0 <$> rounds) ++ [Agent.Run 0 Agent.Main].

Definition first_pass : Agent.pass :=
  Agent.c_pass (Agent.runUpdate_after "linux" impl linux_rounds
                  before_first_event []).

(** Start-up on Linux outside systemd, with only the template of the
    configuration present and the metadata server out of reach. *)
Definition env : Agent.startup string (list string) :=
  {| Agent.logger_Init := None;
     Agent.files := only_template;
     Agent.agentInit := fun g os => (g, os);
     Agent.mdsClient_Get := (None, Some "metadata: unreachable");
     Agent.events_New := None |}.

Definition unset : Agent.Globals string :=
  {| Agent.oldMetadata := None; Agent.newMetadata := None;
     Agent.config := None |}.

(** OS Login is enabled in the snapshots named "oslogin". *)
Definition getOSLoginEnabled (md : option string) : bool * bool * bool :=
  (bool_decide (md = Some "oslogin"), false, false).

End Example.

(* ===================================================================== *)
(** * Properties of package [service] *)
(* ===================================================================== *)

Module ServiceSpec.
Import Service.

Lemma not_under_systemd (env : gmap string string) :
  env !! "NOTIFY_SOCKET" = None ->
  Unix.systemdContext (Unix.newServiceHandler env) = false.
Proof.
  intros Hnone. unfold Unix.newServiceHandler, Unix.Getenv. simpl.
  by rewrite Hnone.
Qed.

Lemma under_systemd_inv (env : gmap string string) :
  Unix.systemdContext (Unix.newServiceHandler env) = true ->
  exists v, env !! "NOTIFY_SOCKET" = Some v /\ v <> "".
Proof.
  unfold Unix.newServiceHandler, Unix.Getenv. simpl.
  destruct (env !! "NOTIFY_SOCKET") as [v|] eqn:Hv; simpl.
  - intros Hctx. exists v. split; [done|]. intros ->. done.
  - done.
Qed.

Lemma systemd_Register_acts q ss :
  acts (Unix.systemd_Register q ss) <> [] -> Unix.systemdContext ss = true.
Proof. unfold Unix.systemd_Register. by destruct (Unix.systemdContext ss). Qed.

Lemma systemd_SetState_acts q ss state :
  acts (Unix.systemd_SetState q ss state) <> [] ->
  Unix.systemdContext ss = true.
Proof. unfold Unix.systemd_SetState. by destruct (Unix.systemdContext ss). Qed.

Lemma systemd_SetState_after q ss state :
  after (Unix.systemd_SetState q ss state) = ss.
Proof.
  unfold Unix.systemd_SetState, Unix.quiet.
  destruct (Unix.systemdContext ss); simpl; [|done].
  repeat case_decide; done.
Qed.

Lemma win_SetState_after wh state :
  after (Windows.win_SetState wh state) = wh.
Proof.
  unfold Windows.win_SetState, Windows.send.
  repeat case_decide; destruct (Windows.statusChannel wh); done.
Qed.

(** The Windows handler has no test for a standalone launch: the first
    [Register] always goes to [svc.Run], and a [Register] after a
    successful one does nothing. *)
Lemma win_Register_runs (ex : bool) (er : option error) :
  exists sent,
    acts (Windows.win_Register ex er Windows.newServiceHandler)
    = SvcRun serviceName :: sent.
Proof.
  unfold Windows.win_Register. simpl.
  destruct ex, er; simpl; eexists; reflexivity.
Qed.

Lemma win_Register_twice (ex : bool) (wh : Windows.winService) :
  Windows.win_Register ex None
    (after (Windows.win_Register ex None wh))
  = Result (Returns None) (after (Windows.win_Register ex None wh)) [].
Proof.
  unfold Windows.win_Register.
  destruct (Windows.initialized wh) eqn:Hinit; simpl.
  - by rewrite Hinit.
  - by destruct ex.
Qed.




(** C8.  On the systemd handler: when the environment has no
    [NOTIFY_SOCKET], [Register] and [SetState] (whatever the state) return
    [nil] and do nothing to the service manager; and whenever [Register]
    or [SetState] does something to the service manager, [NOTIFY_SOCKET]
    is set to a non-empty value. *)
Theorem standalone_is_noop (q : string -> list string -> option error)
  (env : gmap string string) :
  (env !! "NOTIFY_SOCKET" = None ->
     Manager_Register (Unix.systemd_handler q) (Unix.New env)
     = Result (Returns None) (Unix.newServiceHandler env) [] /\
     forall state,
       Manager_SetState (Unix.systemd_handler q) (Unix.New env) state
       = Result (Returns None) (Unix.newServiceHandler env) []) /\
  (acts (Manager_Register (Unix.systemd_handler q) (Unix.New env)) <> [] ->
     exists v, env !! "NOTIFY_SOCKET" = Some v /\ v <> "") /\
  (forall state,
     acts (Manager_SetState (Unix.systemd_handler q) (Unix.New env) state)
     <> [] ->
     exists v, env !! "NOTIFY_SOCKET" = Some v /\ v <> "").
Proof.
  split; [|split].
  - intros Hnone. pose proof (not_under_systemd env Hnone) as Hctx.
    unfold Manager_Register, Manager_SetState. simpl.
    unfold Unix.systemd_Register, Unix.systemd_SetState.
    rewrite Hctx. done.
  - intros Hacts. apply under_systemd_inv.
    by apply (systemd_Register_acts q).
  - intros state Hacts. apply under_systemd_inv.
    by apply (systemd_SetState_acts q _ state).
Qed.

(** An environment without [NOTIFY_SOCKET]. *)
Lemma standalone_is_noop_witness :
  Example.standalone !! "NOTIFY_SOCKET" = None /\
  Manager_Register (Unix.systemd_handler Example.notify_ok)
                   (Unix.New Example.standalone)
  = Result (Returns None) (Unix.newServiceHandler Example.standalone) [] /\
  Manager_SetState (Unix.systemd_handler Example.notify_ok)
                   (Unix.New Example.standalone) StateRunning
  = Result (Returns None) (Unix.newServiceHandler Example.standalone) [].
Proof.
  assert (Hnone : Example.standalone !! "NOTIFY_SOCKET" = None)
    by (vm_compute; reflexivity).
  split; [exact Hnone|].
  destruct (standalone_is_noop Example.notify_ok Example.standalone)
    as (Hnoop & _).
  destruct (Hnoop Hnone) as [Hreg Hset].
  split; [exact Hreg | apply Hset].
Defined.

End ServiceSpec.

(* ===================================================================== *)
(** * Properties of configuration loading *)
(* ===================================================================== *)

Module IniSpec.
Import Ini.

(** Parsing into a file that already has keys: the keys of the parsed
    text win, the others stay. *)
Lemma parse_lookup (opts : LoadOptions)
  (kvs : list (string * string * string))
  (f : gmap (string * string) string) (k : string * string) :
  parse opts f kvs !! k
  = match parse opts ∅ kvs !! k with
    | Some v => Some v
    | None => f !! k
    end.
Proof.
  revert f. induction kvs as [|e kvs IH]; intros f; simpl.
  - by rewrite lookup_empty.
  - unfold parse in *. simpl. rewrite IH. rewrite (IH (NewKey opts ∅ e)).
    destruct (foldl (NewKey opts) ∅ kvs !! k); [done|].
    destruct e as [[sec key] val]. simpl.
    rewrite !lookup_insert. case_decide; [done|].
    by rewrite lookup_empty.
Qed.

Lemma reload_three (opts : LoadOptions) (fs : gmap string content)
  (a b c : string) (ea eb ec : list (string * string * string)) :
  fs !! a = Some (Entries ea) ->
  fs !! b = Some (Entries eb) ->
  fs !! c = Some (Entries ec) ->
  reload opts fs [a; b; c] ∅
  = inr (parse opts (parse opts (parse opts ∅ ea) eb) ec).
Proof. intros Ha Hb Hc. simpl. by rewrite Ha, Hb, Hc. Qed.

(** With the three files present, the value of every key is the one of
    [file.template] if it has the key, else the one of [file.distro],
    else the one of [file]. *)
Lemma parseConfig_precedence (file : string) (fs : gmap string content)
  (base distro template : list (string * string * string)) :
  fs !! file = Some (Entries base) ->
  fs !! (file +:+ ".distro") = Some (Entries distro) ->
  fs !! (file +:+ ".template") = Some (Entries template) ->
  exists cfg, parseConfig file fs = inr cfg /\
    forall k,
      cfg !! k
      = effective (parse {| Loose := true; Insensitive := true |} ∅ base)
                  (parse {| Loose := true; Insensitive := true |} ∅ distro)
                  (parse {| Loose := true; Insensitive := true |} ∅ template)
                  k.
Proof.
  intros Hb Hd Ht. unfold parseConfig, LoadSources.
  rewrite (reload_three _ _ _ _ _ _ _ _ Hb Hd Ht).
  eexists. split; [reflexivity|].
  intros k. unfold effective.
  rewrite parse_lookup.
  destruct (parse _ ∅ template !! k); [done|].
  rewrite parse_lookup.
  by destruct (parse _ ∅ distro !! k).
Qed.

(** With only [file.template] present, loading succeeds and gives the
    keys of the template. *)
Lemma parseConfig_only_template (file : string) (fs : gmap string content)
  (template : list (string * string * string)) :
  fs !! file = None ->
  fs !! (file +:+ ".distro") = None ->
  fs !! (file +:+ ".template") = Some (Entries template) ->
  parseConfig file fs
  = inr (parse {| Loose := true; Insensitive := true |} ∅ template).
Proof.
  intros Hb Hd Ht. unfold parseConfig, LoadSources. simpl.
  by rewrite Hb, Hd, Ht.
Qed.

(** With no file at all, loading succeeds with an empty configuration. *)
Lemma parseConfig_no_file (file : string) (fs : gmap string content) :
  fs !! file = None ->
  fs !! (file +:+ ".distro") = None ->
  fs !! (file +:+ ".template") = None ->
  parseConfig file fs = inr ∅.
Proof.
  intros Hb Hd Ht. unfold parseConfig, LoadSources. simpl.
  by rewrite Hb, Hd, Ht.
Qed.

(** C2, on three files that all set [useradd_cmd] in section [Accounts]:
    the configuration [parseConfig] returns has the value of
    [file.template], whereas the precedence announced in the comment of
    [parseConfig] (and stated by the claim) gives the value of [file]. *)
Theorem parseConfig_template_overrides_file :
  exists cfg,
    parseConfig "/etc/default/instance_configs.cfg" Example.three_files
    = inr cfg /\
    cfg !! ("accounts", "useradd_cmd") = Some "from-template" /\
    announced
      (parse {| Loose := true; Insensitive := true |} ∅
             [("Accounts", "useradd_cmd", "from-file")])
      (parse {| Loose := true; Insensitive := true |} ∅
             [("Accounts", "useradd_cmd", "from-distro")])
      (parse {| Loose := true; Insensitive := true |} ∅
             [("Accounts", "useradd_cmd", "from-template");
              ("Daemons", "clock_skew_daemon", "true")])
      ("accounts", "useradd_cmd")
    = Some "from-file".
Proof.
  destruct (parseConfig_precedence "/etc/default/instance_configs.cfg"
              Example.three_files
              [("Accounts", "useradd_cmd", "from-file")]
              [("Accounts", "useradd_cmd", "from-distro")]
              [("Accounts", "useradd_cmd", "from-template");
               ("Daemons", "clock_skew_daemon", "true")])
    as (cfg & Hcfg & Hval); [vm_compute; reflexivity ..|].
  exists cfg. split; [exact Hcfg|]. split.
  - rewrite Hval. vm_compute. reflexivity.
  - vm_compute. reflexivity.
Qed.

End IniSpec.

(* ===================================================================== *)
(** * Properties of [runUpdate] and of the handler *)
(* ===================================================================== *)

Module AgentSpec.
Import Agent.

#[local] Set Warnings "-clear-no-such-hyp".

(** ** One goroutine *)

(** Splits a goal about a goroutine that satisfies [task_ok] into the
    histories its position allows, and closes each by membership in an
    explicit list. *)
Ltac history_cases t :=
  let p := fresh "p" in
  let h := fresh "h" in
  destruct t as [p h];
  unfold task_ok, after_body, before_set, set_log; simpl;
  intros; destruct p;
  repeat match goal with
         | H : _ \/ _ |- _ => destruct H
         | H : _ /\ _ |- _ => destruct H
         | H : ex _ |- _ => destruct H
         | r : option error |- _ => destruct r
         end;
  simplify_eq/=; set_unfold; naive_solver.

Section Task.

Variables (Descriptor OS : Type).
Variable goos : string.

Implicit Types (m : manager Descriptor OS) (g : Globals Descriptor) (os : OS).
Implicit Types (t : task).

Lemma task_step_ok m g t os t' os' :
  task_ok goos t ->
  task_step goos m g t os = Some (t', os') ->
  task_ok goos t'.
Proof.
  unfold task_step, task_ok. intros Hok Hstep.
  destruct (pc t) eqn:Hpc.
  - destruct (disabled m goos g os) as [[] o]; simplify_eq/=; rewrite Hok;
      [left|]; done.
  - destruct (timeout m g os) as [[] o]; simplify_eq/=; rewrite Hok;
      [left|]; done.
  - destruct (diff m g os) as [[] o]; simplify_eq/=; rewrite Hok;
      [right | right; left]; done.
  - destruct (set m g os) as [r o]; simplify_eq/=.
    right; right. by exists (hist t), r.
  - simplify_eq/=. by exists (hist t).
  - done.
Qed.

Lemma task_step_sound m g t os t' os' :
  sound goos m t ->
  task_step goos m g t os = Some (t', os') ->
  sound goos m t'.
Proof.
  unfold task_step, sound. intros (Hd & Ht & Hf & Hs) Hstep.
  destruct (pc t) eqn:Hpc.
  - destruct (disabled m goos g os) as [r o] eqn:Hcall.
    destruct r; simplify_eq/=; repeat split; intros r Hin;
      apply elem_of_app in Hin as [Hin|Hin]; eauto; set_unfold;
      destruct_or?; simplify_eq; exists g, os; by rewrite Hcall.
  - destruct (timeout m g os) as [r o] eqn:Hcall.
    simplify_eq/=; repeat split; intros r' Hin;
      apply elem_of_app in Hin as [Hin|Hin]; eauto; set_unfold;
      destruct_or?; simplify_eq; exists g, os; by rewrite Hcall.
  - destruct (diff m g os) as [r o] eqn:Hcall.
    destruct r; simplify_eq/=; repeat split; intros r Hin;
      apply elem_of_app in Hin as [Hin|Hin]; eauto; set_unfold;
      destruct_or?; simplify_eq; exists g, os; by rewrite Hcall.
  - destruct (set m g os) as [r o] eqn:Hcall.
    simplify_eq/=; repeat split; intros r' Hin;
      apply elem_of_app in Hin as [Hin|Hin]; eauto;
      destruct r; set_unfold; destruct_or?; simplify_eq;
      exists g, os; by rewrite Hcall.
  - simplify_eq/=; repeat split; intros r' Hin;
      apply elem_of_app in Hin as [Hin|Hin]; eauto; set_unfold;
      destruct_or?; simplify_eq.
  - done.
Qed.

Lemma task_step_fuel m g t os t' os' :
  task_step goos m g t os = Some (t', os') ->
  (task_fuel t' < task_fuel t)%nat.
Proof.
  unfold task_step, task_fuel. intros Hstep.
  destruct (pc t) eqn:Hpc.
  - destruct (disabled m goos g os) as [[] o]; simplify_eq/=; lia.
  - destruct (timeout m g os) as [[] o]; simplify_eq/=; lia.
  - destruct (diff m g os) as [[] o]; simplify_eq/=; lia.
  - destruct (set m g os) as [r o]; simplify_eq/=; lia.
  - simplify_eq/=; lia.
  - done.
Qed.

(** A goroutine that has not ended can always move, whatever the
    package-level variables and the host are. *)
Lemma task_step_enabled m g t os :
  pc t <> Finished -> is_Some (task_step goos m g t os).
Proof.
  unfold task_step. intros Hpc. destruct (pc t); try done.
  - by destruct (disabled m goos g os).
  - by destruct (timeout m g os).
  - by destruct (diff m g os).
  - by destruct (set m g os).
Qed.

Lemma task_step_from m g t os t' os' :
  task_step goos m g t os = Some (t', os') ->
  finished t = false /\ (finished t' = true <-> pc t = AtDefer).
Proof.
  unfold task_step, finished. intros Hstep.
  destruct (pc t) eqn:Hpc.
  - destruct (disabled m goos g os) as [[] o]; simplify_eq/=; naive_solver.
  - destruct (timeout m g os) as [[] o]; simplify_eq/=; naive_solver.
  - destruct (diff m g os) as [[] o]; simplify_eq/=; naive_solver.
  - destruct (set m g os) as [r o]; simplify_eq/=; naive_solver.
  - simplify_eq/=; naive_solver.
  - done.
Qed.

(** The step at [set]: [set] is called once, its error, if any, is
    logged, and the goroutine goes on to its deferred [wg.Done()]. *)
Lemma task_step_set m g t os :
  pc t = AtSet ->
  task_step goos m g t os
  = Some ({| pc := AtDefer;
             hist := hist t ++ Log LogRunning :: CallSet (set m g os).1
                            :: set_log (set m g os).1 |},
          (set m g os).2).
Proof.
  intros Hpc. unfold task_step. rewrite Hpc. by destruct (set m g os).
Qed.

(** ** What a history says, position by position *)

Lemma set_needs_eligible t :
  task_ok goos t -> invoked_set t -> eligible goos t.
Proof.
  unfold invoked_set, eligible. intros Hok [r Hin]. revert Hok Hin.
  history_cases t.
Qed.

Lemma eligible_gets_set t :
  task_ok goos t -> pc t = AtDefer \/ pc t = Finished ->
  eligible goos t -> invoked_set t.
Proof.
  unfold invoked_set, eligible. intros Hok Hpc [Hd Hrun].
  revert Hok Hpc Hd Hrun. history_cases t.
Qed.

Lemma disabled_never_set t :
  task_ok goos t -> CallDisabled goos true ∈ hist t ->
  ~ invoked_set t /\
  (forall r, CallTimeout r ∉ hist t) /\ (forall r, CallDiff r ∉ hist t).
Proof.
  unfold invoked_set. intros Hok Hin. revert Hok Hin. history_cases t.
Qed.

Lemma timeout_skips_diff t :
  task_ok goos t -> CallTimeout true ∈ hist t ->
  CallDisabled goos false ∈ hist t /\ (forall r, CallDiff r ∉ hist t).
Proof. intros Hok Hin. revert Hok Hin. history_cases t. Qed.

Lemma set_error_logged t e :
  task_ok goos t -> CallSet (Some e) ∈ hist t ->
  Log (LogErrorRunning e) ∈ hist t.
Proof. intros Hok Hin. revert Hok Hin. history_cases t. Qed.

(** A goroutine that has ended called [disabled]; if that returned false
    it called [timeout]; if that returned false too it called [diff]. *)
Lemma finished_called t :
  task_ok goos t -> pc t = Finished ->
  CallDisabled goos true ∈ hist t \/
  (CallDisabled goos false ∈ hist t /\
   (CallTimeout true ∈ hist t \/
    (CallTimeout false ∈ hist t /\
     (CallDiff true ∈ hist t \/ CallDiff false ∈ hist t)))).
Proof. intros Hok Hpc. revert Hok Hpc. history_cases t. Qed.

End Task.

(** ** Counting the goroutines that have not ended *)

Lemma pending_app (ts : list task) (t : task) :
  pending (ts ++ [t]) = pending ts + (if finished t then 0 else 1).
Proof. induction ts as [|t0 ts IH]; simpl; lia. Qed.

Lemma pending_insert (ts : list task) (i : nat) (t t' : task) :
  ts !! i = Some t ->
  pending (<[i := t']> ts)
  = pending ts - (if finished t then 0 else 1)
    + (if finished t' then 0 else 1).
Proof.
  revert i. induction ts as [|t0 ts IH]; intros [|i] Hi; simplify_eq/=.
  - lia.
  - rewrite (IH i Hi). lia.
Qed.

Lemma pending_nonneg (ts : list task) : 0 <= pending ts.
Proof.
  induction ts as [|t ts IH]; simpl; [lia|]. destruct (finished t); lia.
Qed.

Lemma pending_zero (ts : list task) :
  pending ts = 0 -> Forall (fun t => pc t = Finished) ts.
Proof.
  induction ts as [|t ts IH]; simpl; intros Hz; [constructor|].
  pose proof (pending_nonneg ts) as Hnn. unfold finished in Hz.
  destruct (pc t) eqn:Hpc; try lia.
  constructor; [done|]. apply IH. lia.
Qed.

Lemma pending_positive (ts : list task) :
  pending ts <> 0 -> exists i t, ts !! i = Some t /\ pc t <> Finished.
Proof.
  induction ts as [|t ts IH]; simpl; intros Hnz; [done|].
  destruct (decide (pc t = Finished)) as [Hfin|Hfin].
  - unfold finished in Hnz. rewrite Hfin in Hnz.
    destruct IH as (i & t1 & Hi & Hpc); [lia|]. by exists (S i), t1.
  - by exists 0%nat, t.
Qed.

Lemma tasks_fuel_app (ts : list task) (t : task) :
  tasks_fuel (ts ++ [t]) = (tasks_fuel ts + task_fuel t)%nat.
Proof. induction ts as [|t0 ts IH]; simpl; lia. Qed.

Lemma tasks_fuel_insert (ts : list task) (i : nat) (t t' : task) :
  ts !! i = Some t ->
  (tasks_fuel (<[i := t']> ts) + task_fuel t
   = tasks_fuel ts + task_fuel t')%nat.
Proof.
  revert i. induction ts as [|t0 ts IH]; intros [|i] Hi; simplify_eq/=.
  - lia.
  - pose proof (IH i Hi). lia.
Qed.

(** ** One call of [runUpdate] *)

Section Pass.

Variables (Descriptor OS : Type).
Variable goos : string.
Variable mgrs : list (manager Descriptor OS).

Implicit Types (g : Globals Descriptor) (os : OS) (p : pass) (th : tid).
Implicit Types (cf : running Descriptor OS).
Implicit Types (cs : list (choice Descriptor OS)).

Lemma entry_ok : pass_ok goos mgrs runUpdate_entry.
Proof.
  unfold pass_ok, runUpdate_entry. simpl.
  split; [done|]. split; [constructor|]. split; [done|lia].
Qed.

Lemma entry_sound : pass_sound goos mgrs runUpdate_entry.
Proof. intros i m t _ Hi. done. Qed.

(** A goroutine that can move has not ended, so the call has not
    returned. *)
Lemma returned_all_finished p :
  pass_ok goos mgrs p -> main p = Returned ->
  length (tasks p) = length mgrs /\
  Forall (fun t => pc t = Finished) (tasks p).
Proof.
  intros (Hwg & _ & Hmain) Hret. rewrite Hret in Hmain.
  destruct Hmain as [Hlen Hzero]. split; [done|].
  apply pending_zero. lia.
Qed.

Lemma step_ok g th p os p' os' :
  pass_ok goos mgrs p ->
  step goos mgrs g th p os = Some (p', os') ->
  pass_ok goos mgrs p'.
Proof.
  intros Hok Hstep. pose proof Hok as (Hwg & Htasks & Hmain).
  unfold step in Hstep. destruct th as [|i].
  - destruct (main p) as [k| |] eqn:Hpc; [| |done].
    + destruct Hmain as [Hlen Hle].
      destruct (mgrs !! k) as [m|] eqn:Hk; simplify_eq/=.
      * apply lookup_lt_Some in Hk.
        unfold pass_ok; simpl. rewrite pending_app, length_app. simpl.
        split; [lia|]. split; [|lia].
        apply Forall_app. split; [done|]. by repeat constructor.
      * apply lookup_ge_None in Hk.
        unfold pass_ok; simpl. split; [done|]. split; [done|]. lia.
    + case_decide; simplify_eq/=. unfold pass_ok; simpl. done.
  - destruct (mgrs !! i) as [m|] eqn:Hm; [|done].
    destruct (tasks p !! i) as [t|] eqn:Ht; [|done].
    destruct (task_step goos m g t os) as [[t' o]|] eqn:Hts; simplify_eq/=.
    pose proof (task_step_from _ _ _ _ _ _ _ _ _ Hts) as [Hnf Hfin].
    unfold pass_ok; simpl.
    rewrite (pending_insert _ _ _ _ Ht), Hnf, length_insert.
    split; [destruct (finished t'); lia|]. split.
    + apply Forall_insert; [done|].
      eapply task_step_ok; [|exact Hts].
      by eapply Forall_lookup_1.
    + destruct (main p) eqn:Hpc; [done..|].
      destruct (returned_all_finished p Hok Hpc) as [_ Hall].
      pose proof (Forall_lookup_1 _ _ _ _ Hall Ht) as Hpct.
      unfold finished in Hnf. simpl in Hpct. by rewrite Hpct in Hnf.
Qed.

Lemma step_sound g th p os p' os' :
  pass_sound goos mgrs p ->
  step goos mgrs g th p os = Some (p', os') ->
  pass_sound goos mgrs p'.
Proof.
  intros Hsound Hstep. unfold step in Hstep. destruct th as [|i].
  - destruct (main p) as [k| |] eqn:Hpc; [| |done].
    + destruct (mgrs !! k) as [m|] eqn:Hk; simplify_eq/=; [|done].
      intros j mj tj Hmj Htj. simpl in Htj.
      apply lookup_app_Some in Htj as [Htj|[_ Htj]]; [by eapply Hsound|].
      apply list_lookup_singleton_Some in Htj as [_ <-].
      unfold sound; simpl. repeat split; intros r Hin; by set_unfold.
    + case_decide; simplify_eq/=. done.
  - destruct (mgrs !! i) as [m|] eqn:Hm; [|done].
    destruct (tasks p !! i) as [t|] eqn:Ht; [|done].
    destruct (task_step goos m g t os) as [[t' o]|] eqn:Hts; simplify_eq/=.
    intros j mj tj Hmj Htj. simpl in Htj.
    destruct (decide (i = j)) as [<-|Hne].
    + rewrite list_lookup_insert_eq in Htj by (by eapply lookup_lt_Some).
      simplify_eq. eapply task_step_sound; [|exact Hts]. by eapply Hsound.
    + rewrite list_lookup_insert_ne in Htj by done. by eapply Hsound.
Qed.

(** A step of one goroutine leaves the caller and the other goroutines
    as they are. *)
Lemma step_task_frame g i p os p' os' :
  step goos mgrs g (Task i) p os = Some (p', os') ->
  main p' = main p /\ length (tasks p') = length (tasks p) /\
  forall j, j <> i -> tasks p' !! j = tasks p !! j.
Proof.
  unfold step. intros Hstep.
  destruct (mgrs !! i) as [m|] eqn:Hm; [|done].
  destruct (tasks p !! i) as [t|] eqn:Ht; [|done].
  destruct (task_step goos m g t os) as [[t' o]|] eqn:Hts; simplify_eq/=.
  split; [done|]. split; [by rewrite length_insert|].
  intros j Hne. by rewrite list_lookup_insert_ne.
Qed.

(** A goroutine that has been launched and has not ended can move,
    whatever the others did. *)
Lemma step_task_enabled g i t p os :
  pass_ok goos mgrs p -> tasks p !! i = Some t -> pc t <> Finished ->
  is_Some (step goos mgrs g (Task i) p os).
Proof.
  intros (_ & _ & Hmain) Ht Hpc. unfold step.
  assert (Hlt : (i < length mgrs)%nat).
  { apply lookup_lt_Some in Ht. destruct (main p); lia. }
  destruct (lookup_lt_is_Some_2 mgrs i Hlt) as [m Hm]. rewrite Hm, Ht.
  destruct (task_step_enabled _ _ goos m g t os Hpc) as [[t' o] Hts].
  by rewrite Hts.
Qed.

(** While the call has not returned, some thread can move. *)
Lemma progress g p os :
  pass_ok goos mgrs p -> main p <> Returned ->
  exists th, is_Some (step goos mgrs g th p os).
Proof.
  intros Hok Hnr. pose proof Hok as (Hwg & _ & Hmain).
  destruct (main p) as [k| |] eqn:Hpc; [| |done].
  - exists Main. unfold step. rewrite Hpc. by destruct (mgrs !! k).
  - destruct (decide (wg p = 0)) as [Hz|Hnz].
    + exists Main. unfold step. rewrite Hpc. by rewrite decide_True.
    + destruct (pending_positive (tasks p)) as (i & t & Hi & Hpct); [lia|].
      exists (Task i). by eapply step_task_enabled.
Qed.

Lemma step_fuel g th p os p' os' :
  pass_ok goos mgrs p ->
  step goos mgrs g th p os = Some (p', os') ->
  (fuel mgrs p' < fuel mgrs p)%nat.
Proof.
  intros (_ & _ & Hmain) Hstep. unfold step in Hstep. unfold fuel.
  destruct th as [|i].
  - destruct (main p) as [k| |] eqn:Hpc; [| |done].
    + destruct Hmain as [Hlen Hle].
      destruct (mgrs !! k) as [m|] eqn:Hk; simplify_eq;
        cbn [main tasks].
      * apply lookup_lt_Some in Hk. rewrite tasks_fuel_app.
        unfold task_fuel. cbn [pc]. lia.
      * lia.
    + case_decide; simplify_eq; cbn [main tasks]. lia.
  - destruct (mgrs !! i) as [m|] eqn:Hm; [|done].
    destruct (tasks p !! i) as [t|] eqn:Ht; [|done].
    destruct (task_step goos m g t os) as [[t' o]|] eqn:Hts; simplify_eq/=.
    pose proof (task_step_fuel _ _ _ _ _ _ _ _ _ Hts).
    pose proof (tasks_fuel_insert _ _ _ t' Ht). lia.
Qed.

(** ** Executions *)

Lemma exec_app cs1 cs2 cf :
  exec goos mgrs (cs1 ++ cs2) cf = exec goos mgrs cs2 (exec goos mgrs cs1 cf).
Proof. unfold exec. apply foldl_app. Qed.

Lemma exec1_ok cf c :
  pass_ok goos mgrs (c_pass cf) ->
  pass_ok goos mgrs (c_pass (exec1 goos mgrs cf c)).
Proof.
  intros Hok. destruct c as [th|g os]; simpl; [|done].
  destruct (step goos mgrs (c_globals cf) th (c_pass cf) (c_os cf))
    as [[p os]|] eqn:Hstep; [|done].
  simpl. by eapply step_ok.
Qed.

Lemma exec1_sound cf c :
  pass_sound goos mgrs (c_pass cf) ->
  pass_sound goos mgrs (c_pass (exec1 goos mgrs cf c)).
Proof.
  intros Hok. destruct c as [th|g os]; simpl; [|done].
  destruct (step goos mgrs (c_globals cf) th (c_pass cf) (c_os cf))
    as [[p os]|] eqn:Hstep; [|done].
  simpl. by eapply step_sound.
Qed.

Lemma exec_ok cs cf :
  pass_ok goos mgrs (c_pass cf) ->
  pass_ok goos mgrs (c_pass (exec goos mgrs cs cf)).
Proof.
  revert cf. induction cs as [|c cs IH]; intros cf Hok; [done|].
  apply IH. by apply exec1_ok.
Qed.

Lemma exec_sound cs cf :
  pass_sound goos mgrs (c_pass cf) ->
  pass_sound goos mgrs (c_pass (exec goos mgrs cs cf)).
Proof.
  revert cf. induction cs as [|c cs IH]; intros cf Hok; [done|].
  apply IH. by apply exec1_sound.
Qed.

(** From every state a call of [runUpdate] can be in, some schedule
    makes it return. *)
Lemma can_return cf :
  pass_ok goos mgrs (c_pass cf) ->
  exists cs, main (c_pass (exec goos mgrs cs cf)) = Returned.
Proof.
  remember (fuel mgrs (c_pass cf)) as n eqn:Hn.
  revert cf Hn. induction (lt_wf n) as [n _ IH]. intros cf Hn Hok.
  destruct (decide (main (c_pass cf) = Returned)) as [Hret|Hnr].
  - by exists [].
  - destruct (progress (c_globals cf) (c_pass cf) (c_os cf) Hok Hnr)
      as (th & [p' os'] & Hstep).
    pose proof (step_fuel _ _ _ _ _ _ Hok Hstep) as Hlt.
    pose proof (step_ok _ _ _ _ _ _ Hok Hstep) as Hok'.
    destruct (IH (fuel mgrs p') ltac:(lia)
                 {| c_pass := p'; c_globals := c_globals cf; c_os := os' |}
                 eq_refl Hok') as [cs Hcs].
    exists (Sched th :: cs). unfold exec in *. simpl. by rewrite Hstep.
Qed.

End Pass.

(** ** [runUpdate] on the list of the platform *)

Section RunUpdate.

Variables (Descriptor OS : Type).
Variable goos : string.
Variable impl : mgrKind -> manager Descriptor OS.

Implicit Types (g : Globals Descriptor) (os : OS).
Implicit Types (cs : list (choice Descriptor OS)).

Local Abbreviation mgrs := (managers Descriptor OS goos impl).
Local Abbreviation after := (runUpdate_after goos impl).

Lemma after_ok cs g os : pass_ok goos mgrs (c_pass (after cs g os)).
Proof. apply exec_ok. apply entry_ok. Qed.

Lemma after_sound cs g os : pass_sound goos mgrs (c_pass (after cs g os)).
Proof. apply exec_sound. apply entry_sound. Qed.

Lemma after_returned cs g os :
  main (c_pass (after cs g os)) = Returned ->
  forall i m, mgrs !! i = Some m ->
    exists t, tasks (c_pass (after cs g os)) !! i = Some t /\
              pc t = Finished /\ task_ok goos t /\ sound goos m t.
Proof.
  intros Hret i m Hm.
  destruct (returned_all_finished _ _ _ _ _ (after_ok cs g os) Hret)
    as [Hlen Hall].
  destruct (lookup_lt_is_Some_2 (tasks (c_pass (after cs g os))) i)
    as [t Ht]; [rewrite Hlen; by eapply lookup_lt_Some|].
  exists t. split; [done|]. split; [by eapply (Forall_lookup_1 _ _ _ _ Hall)|].
  split.
  - destruct (after_ok cs g os) as (_ & Hts & _).
    by eapply (Forall_lookup_1 _ _ _ _ Hts).
  - by eapply after_sound.
Qed.

(** C1.  In every execution of [runUpdate] (every schedule of its
    goroutines, whatever the rest of the process does in between), for
    the goroutine of every manager: [set] is called only after
    [disabled] returned false and [timeout] or [diff] returned true; it
    is never called once [disabled] returned true, whatever [timeout] and
    [diff] would say (they are not even called); when the goroutine has
    ended, [set] was called if and only if [disabled] returned false and
    [timeout] or [diff] returned true, and if [timeout] returned true
    then [set] was called without [diff] being called.  When [runUpdate]
    has returned this holds for every manager of the list.  The recorded
    results are results of the methods: a manager whose [disabled] is
    always true never has [set] called, and one that is never disabled
    and whose [timeout] is always true has had [set] called when
    [runUpdate] returns. *)
Theorem set_iff_dispatch cs g os :
  (forall i t, tasks (c_pass (after cs g os)) !! i = Some t ->
     (invoked_set t -> eligible goos t) /\
     (CallDisabled goos true ∈ hist t ->
        ~ invoked_set t /\
        (forall r, CallTimeout r ∉ hist t) /\ (forall r, CallDiff r ∉ hist t)) /\
     (pc t = Finished -> (invoked_set t <-> eligible goos t)) /\
     (pc t = Finished -> CallTimeout true ∈ hist t ->
        invoked_set t /\ forall r, CallDiff r ∉ hist t)) /\
  (main (c_pass (after cs g os)) = Returned ->
     forall i m, mgrs !! i = Some m ->
       exists t, tasks (c_pass (after cs g os)) !! i = Some t /\
                 pc t = Finished /\ (invoked_set t <-> eligible goos t)) /\
  (forall i m t, mgrs !! i = Some m ->
     tasks (c_pass (after cs g os)) !! i = Some t ->
     sound goos m t /\
     ((forall g' os', (disabled m goos g' os').1 = true) -> ~ invoked_set t)) /\
  (main (c_pass (after cs g os)) = Returned ->
     forall i m, mgrs !! i = Some m ->
       (forall g' os', (disabled m goos g' os').1 = false) ->
       (forall g' os', (timeout m g' os').1 = true) ->
       exists t, tasks (c_pass (after cs g os)) !! i = Some t /\
                 invoked_set t /\ forall r, CallDiff r ∉ hist t).
Proof.
  assert (Hok : forall i t, tasks (c_pass (after cs g os)) !! i = Some t ->
                            task_ok goos t).
  { intros i t Ht. destruct (after_ok cs g os) as (_ & Hts & _).
    by eapply (Forall_lookup_1 _ _ _ _ Hts). }
  split; [|split; [|split]].
  - intros i t Ht. pose proof (Hok i t Ht) as Ht_ok.
    split; [by apply set_needs_eligible|].
    split; [by apply disabled_never_set|].
    split.
    + intros Hfin. split; [by apply set_needs_eligible|].
      apply eligible_gets_set; auto.
    + intros Hfin Htmo.
      destruct (timeout_skips_diff goos t Ht_ok Htmo) as [Hd Hnodiff].
      split; [|done]. apply (eligible_gets_set goos); auto.
      split; auto.
  - intros Hret i m Hm.
    destruct (after_returned cs g os Hret i m Hm) as (t & Ht & Hfin & Ht_ok & _).
    exists t. split; [done|]. split; [done|].
    split; [by apply set_needs_eligible|].
    apply eligible_gets_set; auto.
  - intros i m t Hm Ht. pose proof (after_sound cs g os i m t Hm Ht) as Hs.
    split; [done|]. intros Hdis Hset.
    destruct (set_needs_eligible goos t (Hok i t Ht) Hset) as [Hd _].
    destruct Hs as (Hsd & _). destruct (Hsd false Hd) as (g' & os' & Hcall).
    rewrite Hdis in Hcall. done.
  - intros Hret i m Hm Hdis Htmo.
    destruct (after_returned cs g os Hret i m Hm)
      as (t & Ht & Hfin & Ht_ok & (Hsd & Hst & _)).
    exists t. split; [done|].
    assert (Htrue : CallTimeout true ∈ hist t).
    { destruct (finished_called goos t Ht_ok Hfin)
        as [Hd|(_ & [Ht1|(Ht0 & _)])].
      - destruct (Hsd true Hd) as (g' & os' & Hcall).
        rewrite Hdis in Hcall. done.
      - done.
      - destruct (Hst false Ht0) as (g' & os' & Hcall).
        rewrite Htmo in Hcall. done. }
    destruct (timeout_skips_diff goos t Ht_ok Htrue) as [Hd Hnodiff].
    split; [|done]. apply (eligible_gets_set goos); auto. split; auto.
Qed.

Lemma after_app cs cs' g os :
  after (cs ++ cs') g os = exec goos mgrs cs' (after cs g os).
Proof. unfold runUpdate_after. apply exec_app. Qed.

Lemma after_can_return cs g os :
  exists cs', main (c_pass (after (cs ++ cs') g os)) = Returned.
Proof.
  destruct (can_return _ _ goos mgrs (after cs g os) (after_ok cs g os))
    as [cs' Hret].
  exists cs'. by rewrite after_app.
Qed.



End RunUpdate.

(** ** The handler and the agent *)

Lemma Exists_insert_inv {A} (P : A -> Prop) (l : list A) (i : nat) (x : A) :
  Exists P (<[i := x]> l) -> P x \/ Exists P l.
Proof.
  rewrite !Exists_exists. intros (y & Hin & Hy).
  apply list_elem_of_lookup in Hin as [j Hj].
  destruct (decide (i = j)) as [<-|Hne].
  - destruct (decide (i < length l)%nat) as [Hlt|Hge].
    + rewrite list_lookup_insert_eq in Hj by done. simplify_eq. by left.
    + rewrite list_insert_ge in Hj by lia.
      right. exists y. split; [|done]. by eapply list_elem_of_lookup_2.
  - rewrite list_lookup_insert_ne in Hj by done.
    right. exists y. split; [|done]. by eapply list_elem_of_lookup_2.
Qed.

Section Handler.

Variables (Descriptor OS : Type).
Variable goos : string.
Variable impl : mgrKind -> manager Descriptor OS.

Implicit Types (g : Globals Descriptor) (os : OS) (p : pass) (th : tid).
Implicit Types (hs : handler_state Descriptor).
Implicit Types (a : agent Descriptor OS).
Implicit Types (acts : list (action Descriptor)).

Local Abbreviation mgrs := (managers Descriptor OS goos impl).
Local Abbreviation hstep := (handler_step goos impl).
Local Abbreviation run := (agent_run goos impl).

Lemma returned_is_joined p :
  pass_ok goos mgrs p -> main p = Returned -> joined goos impl p.
Proof. intros Hok Hret. by apply (returned_all_finished _ _ goos mgrs p). Qed.

(** The two kinds of step of a handler inside [runUpdate]: a step of
    [runUpdate], which leaves the package-level variables alone, and the
    assignment [oldMetadata = newMetadata], taken by the handler when
    [runUpdate] has returned. *)
Lemma hstep_in_update g os th p hs' g' os' :
  pass_ok goos mgrs p ->
  hstep g os th (InRunUpdate p) = Some (hs', g', os') ->
  (exists p', hs' = InRunUpdate p' /\ g' = g /\
              step goos mgrs g th p os = Some (p', os')) \/
  (th = Main /\ main p = Returned /\ hs' = HReturned true (Some p) /\
   g' = {| oldMetadata := newMetadata g; newMetadata := newMetadata g;
           config := config g |} /\
   os' = os).
Proof.
  intros Hok Hstep. unfold handler_step in Hstep.
  destruct (main p) eqn:Hpc; destruct th as [|i];
    try (destruct (step goos mgrs g _ p os) as [[p' o]|] eqn:Hs;
         simplify_eq; left; by exists p').
  right. by simplify_eq.
Qed.

Lemma hstep_ok g os th hs hs' g' os' :
  handler_ok goos impl hs ->
  hstep g os th hs = Some (hs', g', os') ->
  handler_ok goos impl hs'.
Proof.
  intros Hok Hstep. destruct hs as [evData|p|keep u].
  - unfold handler_step in Hstep. destruct th; [|done].
    destruct (Error evData); simplify_eq; [done|].
    destruct (Data evData); simplify_eq; [|done].
    simpl. apply entry_ok.
  - simpl in Hok.
    destruct (hstep_in_update _ _ _ _ _ _ _ Hok Hstep)
      as [(p' & -> & _ & Hs)|(_ & Hret & -> & _)].
    + simpl. by eapply step_ok.
    + done.
  - done.
Qed.

Lemma agent_step_handlers_ok a act :
  Forall (handler_ok goos impl) (handlers a) ->
  Forall (handler_ok goos impl) (handlers (agent_step goos impl a act)).
Proof.
  intros Hok. destruct act as [evData|h th]; simpl.
  - apply Forall_app. split; [done|]. by repeat constructor.
  - destruct (handlers a !! h) as [hs|] eqn:Hh; [|done].
    destruct (hstep (globals a) (host a) th hs) as [[[hs' g'] os']|] eqn:Hs;
      [|done].
    simpl. apply Forall_insert; [done|].
    eapply hstep_ok; [|exact Hs]. by eapply Forall_lookup_1.
Qed.

Lemma run_handlers_ok acts a :
  Forall (handler_ok goos impl) (handlers a) ->
  Forall (handler_ok goos impl) (handlers (run acts a)).
Proof.
  revert a. induction acts as [|act acts IH]; intros a Hok; [done|].
  apply IH. by apply agent_step_handlers_ok.
Qed.

(** The assignment [oldMetadata = newMetadata] is a step of a handler
    whose [runUpdate] has launched all its goroutines and seen them
    end. *)
Lemma assignment_joined a h p th keep u g' os' :
  Forall (handler_ok goos impl) (handlers a) ->
  handlers a !! h = Some (InRunUpdate p) ->
  hstep (globals a) (host a) th (InRunUpdate p)
  = Some (HReturned keep u, g', os') ->
  joined goos impl p /\ th = Main /\ keep = true /\ u = Some p /\
  oldMetadata g' = newMetadata (globals a) /\
  newMetadata g' = newMetadata (globals a).
Proof.
  intros Hall Hh Hstep.
  pose proof (Forall_lookup_1 _ _ _ _ Hall Hh) as Hok. simpl in Hok.
  destruct (hstep_in_update _ _ _ _ _ _ _ Hok Hstep)
    as [(p' & ? & _)|(-> & Hret & ? & -> & _)]; simplify_eq.
  split; [|done]. by apply returned_is_joined.
Qed.

Lemma returned_joined a h keep p :
  Forall (handler_ok goos impl) (handlers a) ->
  handlers a !! h = Some (HReturned keep (Some p)) ->
  joined goos impl p.
Proof.
  intros Hall Hh.
  pose proof (Forall_lookup_1 _ _ _ _ Hall Hh) as [Hok Hret].
  by apply returned_is_joined.
Qed.

(** C3, as the code has it.  In every execution of the agent after the
    subscription (events delivered at any time, any schedule of the
    goroutines): a call of the handler that is past
    [oldMetadata = newMetadata] has a [runUpdate] whose goroutines have
    all been launched and have all ended; and a step of a handler that is
    inside [runUpdate] is either a step of [runUpdate], which leaves the
    package-level variables as they are, or the assignment, which is
    taken by the handler itself only when all goroutines of its
    [runUpdate] have been launched and have ended. *)
Theorem oldMetadata_assigned_after_join a acts :
  handlers a = [] ->
  (forall h keep p,
     handlers (run acts a) !! h = Some (HReturned keep (Some p)) ->
     joined goos impl p) /\
  (forall h p th hs' g' os',
     handlers (run acts a) !! h = Some (InRunUpdate p) ->
     hstep (globals (run acts a)) (host (run acts a)) th (InRunUpdate p)
     = Some (hs', g', os') ->
     (exists p', hs' = InRunUpdate p' /\ g' = globals (run acts a)) \/
     (th = Main /\ joined goos impl p /\ hs' = HReturned true (Some p) /\
      oldMetadata g' = newMetadata (globals (run acts a)) /\
      newMetadata g' = newMetadata (globals (run acts a)))).
Proof.
  intros Hnil.
  assert (Hall : Forall (handler_ok goos impl) (handlers (run acts a))).
  { apply run_handlers_ok. rewrite Hnil. constructor. }
  split.
  - intros h keep p. by apply returned_joined.
  - intros h p th hs' g' os' Hh Hstep.
    pose proof (Forall_lookup_1 _ _ _ _ Hall Hh) as Hok. simpl in Hok.
    destruct (hstep_in_update _ _ _ _ _ _ _ Hok Hstep)
      as [(p' & -> & -> & _)|(-> & Hret & -> & -> & _)].
    + left. by exists p'.
    + right. split; [done|]. split; [by apply returned_is_joined|done].
Qed.

(** C4.  A call of the handler with [Error] set, and a call with neither
    [Error] nor [Data], consists of one step: it leaves the package-level
    variables ([newMetadata] among them) and the host as they are, does
    not call [runUpdate], and returns true.  In the agent, that step
    changes nothing but the state of this call. *)
Theorem handler_ignores_error_and_missing_data (evData : EventData Descriptor)
  g os :
  (is_Some (Error evData) \/ (Error evData = None /\ Data evData = None) ->
     hstep g os Main (Called evData) = Some (HReturned true None, g, os) /\
     (forall i, hstep g os (Task i) (Called evData) = None) /\
     (forall th, hstep g os th (HReturned true None) = None)) /\
  (forall a h,
     is_Some (Error evData) \/ (Error evData = None /\ Data evData = None) ->
     handlers a !! h = Some (Called evData) ->
     globals (agent_step goos impl a (Run h Main)) = globals a /\
     host (agent_step goos impl a (Run h Main)) = host a /\
     watchers (agent_step goos impl a (Run h Main)) = watchers a /\
     handlers (agent_step goos impl a (Run h Main))
     = <[h := HReturned true None]> (handlers a)).
Proof.
  assert (Hstep : is_Some (Error evData) \/
                  (Error evData = None /\ Data evData = None) ->
                  hstep g os Main (Called evData)
                  = Some (HReturned true None, g, os)).
  { intros [[e He]|[He Hd]]; unfold handler_step; rewrite He; [done|].
    by rewrite Hd. }
  split.
  - intros Hev. split; [by apply Hstep|]. done.
  - intros a h Hev Hh. unfold agent_step. rewrite Hh.
    assert (Hs : hstep (globals a) (host a) Main (Called evData)
                 = Some (HReturned true None, globals a, host a)).
    { destruct Hev as [[e He]|[He Hd]]; unfold handler_step; rewrite He;
        [done|]. by rewrite Hd. }
    rewrite Hs. done.
Qed.

(** ** The metadata snapshots *)

Lemma agent_step_metadata a act :
  is_Some (oldMetadata (globals a)) ->
  (Exists (fun hs => in_update hs = true) (handlers a) ->
   is_Some (newMetadata (globals a))) ->
  is_Some (oldMetadata (globals (agent_step goos impl a act))) /\
  (Exists (fun hs => in_update hs = true)
          (handlers (agent_step goos impl a act)) ->
   is_Some (newMetadata (globals (agent_step goos impl a act)))).
Proof.
  intros Hold Hnew. destruct act as [evData|h th]; simpl.
  - split; [done|]. intros Hex. apply Exists_app in Hex as [Hex|Hex]; [auto|].
    apply Exists_cons in Hex as [Hex|Hex]; [done|]. by apply Exists_nil in Hex.
  - destruct (handlers a !! h) as [hs|] eqn:Hh; [|done].
    destruct (hstep (globals a) (host a) th hs) as [[[hs' g'] os']|] eqn:Hs;
      [|done].
    simpl. destruct hs as [evData|p|keep u]; [| |done].
    + unfold handler_step in Hs. destruct th; [|done].
      destruct (Error evData); simplify_eq.
      { split; [done|]. intros Hex.
        apply Exists_insert_inv in Hex as [Hex|Hex]; [done|auto]. }
      destruct (Data evData); simplify_eq; [done|].
      split; [done|]. intros Hex.
      apply Exists_insert_inv in Hex as [Hex|Hex]; [done|auto].
    + assert (Hin : is_Some (newMetadata (globals a))).
      { apply Hnew. apply Exists_exists. exists (InRunUpdate p).
        split; [by eapply list_elem_of_lookup_2|done]. }
      unfold handler_step in Hs.
      destruct (main p); destruct th;
        try (destruct (step goos mgrs (globals a) _ p (host a))
               as [[p' o]|]; simplify_eq; done).
      by simplify_eq.
Qed.

Lemma run_metadata acts a :
  is_Some (oldMetadata (globals a)) ->
  (Exists (fun hs => in_update hs = true) (handlers a) ->
   is_Some (newMetadata (globals a))) ->
  is_Some (oldMetadata (globals (run acts a))).
Proof.
  revert a. induction acts as [|act acts IH]; intros a Hold Hnew; [done|].
  destruct (agent_step_metadata a act Hold Hnew) as [Hold' Hnew'].
  by apply IH.
Qed.

Lemma run_watchers acts a : watchers (run acts a) = watchers a.
Proof.
  revert a. induction acts as [|act acts IH]; intros a; [done|].
  simpl. rewrite IH. destruct act as [evData|h th]; simpl; [done|].
  destruct (handlers a !! h) as [hs|]; [|done].
  by destruct (hstep (globals a) (host a) th hs) as [[[hs' g'] os']|].
Qed.

(** ** Start-up *)

Section Startup.

Variable getOSLoginEnabled : option Descriptor -> bool * bool * bool.
Variables mdsEvent_WatcherID sshtrustedca_WatcherID : string.
Variable emptyDescriptor : Descriptor.

Context {H : Type} (I : Service.serviceHandler H) (svc : Service.Manager H).

Local Abbreviation start :=
  (runAgent_start Descriptor OS goos getOSLoginEnabled mdsEvent_WatcherID
                  sshtrustedca_WatcherID emptyDescriptor I svc).
Local Abbreviation configured :=
  (eventsConfig Descriptor getOSLoginEnabled mdsEvent_WatcherID
                sshtrustedca_WatcherID).

Lemma init_subscribed env g0 os0 a :
  runAgent_init Descriptor OS getOSLoginEnabled mdsEvent_WatcherID
                sshtrustedca_WatcherID emptyDescriptor I svc env g0 os0
  = Subscribed a ->
  oldMetadata (globals a) = Some emptyDescriptor /\
  handlers a = [] /\
  watchers a = configured (newMetadata (globals a)).
Proof.
  unfold runAgent_init. intros Hinit.
  destruct (agentInit _ _ env g0 os0) as [g1 os1].
  destruct (Service.ret _) as [[e|]|]; [done| |done].
  destruct (events_New _ _ env); [done|].
  by simplify_eq.
Qed.

Lemma start_subscribed env g0 os0 a :
  start env g0 os0 = Subscribed a ->
  oldMetadata (globals a) = Some emptyDescriptor /\
  handlers a = [] /\
  watchers a = configured (newMetadata (globals a)).
Proof.
  unfold runAgent_start. intros Hstart.
  destruct (logger_Init _ _ env); [done|].
  destruct (Ini.parseConfig _ _) as [err|cfg].
  - destruct (Ini.IsNotExist err); simpl in Hstart; [|done].
    by eapply init_subscribed.
  - by eapply init_subscribed.
Qed.

(** C9.  When [runAgent] gets as far as subscribing the handler, the
    watchers it configured are the metadata long-poll watcher followed,
    if and only if [getOSLoginEnabled] says OS Login is enabled in the
    [newMetadata] of that moment, by the SSH trusted CA watcher; and
    nothing that happens afterwards (events, handler calls, calls of
    [runUpdate]) changes that list. *)
Theorem watchers_fixed_at_startup env g0 os0 a :
  mdsEvent_WatcherID <> sshtrustedca_WatcherID ->
  start env g0 os0 = Subscribed a ->
  mdsEvent_WatcherID ∈ watchers a /\
  (sshtrustedca_WatcherID ∈ watchers a <->
   (getOSLoginEnabled (newMetadata (globals a))).1.1 = true) /\
  watchers a
  = [mdsEvent_WatcherID] ++
    (if (getOSLoginEnabled (newMetadata (globals a))).1.1
     then [sshtrustedca_WatcherID] else []) /\
  (forall acts, watchers (run acts a) = watchers a).
Proof.
  intros Hne Hstart.
  destruct (start_subscribed env g0 os0 a Hstart) as (_ & _ & Hw).
  unfold eventsConfig in Hw. rewrite Hw.
  split; [set_solver|]. split; [|split; [done|]].
  - destruct ((getOSLoginEnabled (newMetadata (globals a))).1.1);
      set_solver.
  - intros acts. by rewrite run_watchers.
Qed.


End Startup.

End Handler.

(** C3 as stated fails: on Linux with the managers of [Example], no
    execution of the agent reaches a state in which a handler takes the
    assignment step while a goroutine launched by its [runUpdate] has not
    ended. *)
Lemma oldMetadata_assignment_waits_for_join :
  ~ (exists acts h p th keep u g' os',
       handlers (agent_run "linux" Example.impl acts Example.subscribed) !! h
       = Some (InRunUpdate p) /\
       handler_step "linux" Example.impl
         (globals (agent_run "linux" Example.impl acts Example.subscribed))
         (host (agent_run "linux" Example.impl acts Example.subscribed))
         th (InRunUpdate p)
       = Some (HReturned keep u, g', os') /\
       Exists (fun t => pc t <> Finished) (tasks p)).
Proof.
  intros (acts & h & p & th & keep & u & g' & os' & Hh & Hstep & Hex).
  assert (Hall : Forall (handler_ok "linux" Example.impl)
                   (handlers (agent_run "linux" Example.impl acts
                                Example.subscribed))).
  { apply run_handlers_ok. constructor. }
  destruct (assignment_joined _ _ _ _ _ _ _ _ _ _ _ _ Hall Hh Hstep)
    as [[_ Hfin] _].
  apply Exists_exists in Hex as (t & Hin & Hpc).
  apply Hpc. by eapply (proj1 (Forall_forall _ _) Hfin).
Qed.

(** The handler of a first event on Linux, run to its end. *)
Lemma oldMetadata_assigned_after_join_witness :
  handlers Example.subscribed = [] /\
  handlers (agent_run "linux" Example.impl Example.first_event
              Example.subscribed) !! 0%nat
  = Some (HReturned true (Some Example.first_pass)) /\
  joined "linux" Example.impl Example.first_pass.
Proof.
  assert (Hnil : handlers Example.subscribed = []) by reflexivity.
  assert (Hh : handlers (agent_run "linux" Example.impl Example.first_event
                           Example.subscribed) !! 0%nat
               = Some (HReturned true (Some Example.first_pass)))
    by (vm_compute; reflexivity).
  split; [exact Hnil|]. split; [exact Hh|].
  destruct (oldMetadata_assigned_after_join string (list string) "linux"
              Example.impl Example.subscribed Example.first_event Hnil)
    as [Hjoin _].
  exact (Hjoin 0%nat true Example.first_pass Hh).
Defined.

(** A failed event that still carries data, and an event without data. *)
Lemma handler_ignores_error_and_missing_data_witness :
  (is_Some (Error Example.failed_event) /\
   handler_step "linux" Example.impl Example.before_first_event [] Main
     (Called Example.failed_event)
   = Some (HReturned true None, Example.before_first_event, [])) /\
  ((Error Example.empty_event = None /\ Data Example.empty_event = None) /\
   handler_step "linux" Example.impl Example.before_first_event [] Main
     (Called Example.empty_event)
   = Some (HReturned true None, Example.before_first_event, [])).
Proof.
  assert (He : is_Some (Error Example.failed_event)) by (eexists; reflexivity).
  assert (Hn : Error Example.empty_event = None /\
               Data Example.empty_event = None) by (split; reflexivity).
  split.
  - split; [exact He|].
    destruct (handler_ignores_error_and_missing_data string (list string)
                "linux" Example.impl Example.failed_event
                Example.before_first_event []) as [Hstep _].
    destruct (Hstep (or_introl He)) as [Hmain _]. exact Hmain.
  - split; [exact Hn|].
    destruct (handler_ignores_error_and_missing_data string (list string)
                "linux" Example.impl Example.empty_event
                Example.before_first_event []) as [Hstep _].
    destruct (Hstep (or_intror Hn)) as [Hmain _]. exact Hmain.
Defined.

(** Start-up on Linux without a snapshot, then a first event. *)
Lemma watchers_fixed_at_startup_witness :
  "metadata-watcher" <> "ssh-trusted-ca-pipe-watcher" /\
  runAgent_start string (list string) "linux" Example.getOSLoginEnabled
    "metadata-watcher" "ssh-trusted-ca-pipe-watcher" ""
    (Service.Unix.systemd_handler Example.notify_ok)
    (Service.Unix.New Example.standalone) Example.env Example.unset []
  = Subscribed Example.subscribed /\
  watchers (agent_run "linux" Example.impl Example.first_event
              Example.subscribed) = watchers Example.subscribed.
Proof.
  assert (Hne : "metadata-watcher" <> "ssh-trusted-ca-pipe-watcher") by done.
  assert (Hstart :
    runAgent_start string (list string) "linux" Example.getOSLoginEnabled
      "metadata-watcher" "ssh-trusted-ca-pipe-watcher" ""
      (Service.Unix.systemd_handler Example.notify_ok)
      (Service.Unix.New Example.standalone) Example.env Example.unset []
    = Subscribed Example.subscribed) by (vm_compute; reflexivity).
  split; [exact Hne|]. split; [exact Hstart|].
  destruct (watchers_fixed_at_startup string (list string) "linux"
              Example.impl Example.getOSLoginEnabled
              "metadata-watcher" "ssh-trusted-ca-pipe-watcher" ""
              (Service.Unix.systemd_handler Example.notify_ok)
              (Service.Unix.New Example.standalone)
              Example.env Example.unset [] Example.subscribed Hne Hstart)
    as (_ & _ & _ & Hfix).
  apply Hfix.
Defined.


(** The clock skew manager on Linux: not disabled, [timeout] true. *)
Lemma set_iff_dispatch_witness :
  main (c_pass (runUpdate_after "linux" Example.impl Example.linux_rounds
                  Example.before_first_event [])) = Returned /\
  exists t,
    tasks (c_pass (runUpdate_after "linux" Example.impl Example.linux_rounds
                     Example.before_first_event [])) !! 1%nat = Some t /\
    pc t = Finished /\ (invoked_set t <-> eligible "linux" t).
Proof.
  assert (Hret : main (c_pass (runUpdate_after "linux" Example.impl
                                 Example.linux_rounds
                                 Example.before_first_event [])) = Returned)
    by (vm_compute; reflexivity).
  split; [exact Hret|].
  destruct (set_iff_dispatch string (list string) "linux" Example.impl
              Example.linux_rounds Example.before_first_event [])
    as (_ & Hall & _).
  apply (Hall Hret 1%nat Example.always_failing). reflexivity.
Defined.



End AgentSpec.

(* ===================================================================== *)
(** * Further properties of package [service] *)
(* ===================================================================== *)

Module ServiceMore.
Import Service.

#[local] Set Warnings "-clear-no-such-hyp".

(** X1.  Every call of [Register] or [SetState] on the systemd handler
    returns, leaves the handler as it is and runs at most one command,
    which is [systemd-notify]; when it runs the command, the process is
    in a systemd context and the call returns the error of the command
    unchanged; when it runs none, it returns [nil] or, for [SetState] in
    a systemd context, the unknown-state error. *)
Theorem systemd_one_notification (q : string -> list string -> option error)
  (ss : Unix.systemdService) (state : ServiceState) :
  (after (Unix.systemd_Register q ss) = ss /\
   ((Unix.systemdContext ss = false /\
     acts (Unix.systemd_Register q ss) = [] /\
     ret (Unix.systemd_Register q ss) = Returns None) \/
    (Unix.systemdContext ss = true /\
     exists args,
       acts (Unix.systemd_Register q ss) = [Exec "systemd-notify" args] /\
       ret (Unix.systemd_Register q ss)
       = Returns (q "systemd-notify" args)))) /\
  (after (Unix.systemd_SetState q ss state) = ss /\
   ((acts (Unix.systemd_SetState q ss state) = [] /\
     (ret (Unix.systemd_SetState q ss state) = Returns None \/
      (Unix.systemdContext ss = true /\
       ret (Unix.systemd_SetState q ss state)
       = Returns (Some (unknown_state state))))) \/
    (Unix.systemdContext ss = true /\
     exists args,
       acts (Unix.systemd_SetState q ss state)
       = [Exec "systemd-notify" args] /\
       ret (Unix.systemd_SetState q ss state)
       = Returns (q "systemd-notify" args)))).
Proof.
  split.
  - unfold Unix.systemd_Register, Unix.quiet.
    destruct (Unix.systemdContext ss); simpl; split; try done.
    + right. split; [done|]. eexists. done.
    + by left.
  - split; [apply ServiceSpec.systemd_SetState_after|].
    unfold Unix.systemd_SetState, Unix.quiet.
    destruct (Unix.systemdContext ss); simpl.
    + repeat case_decide; simpl.
      * right. split; [done|]. eexists. done.
      * right. split; [done|]. eexists. done.
      * left. split; [done|]. by right.
    + left. split; [done|]. by left.
Qed.

(** X2.  The systemd handler passes [--ready] to [systemd-notify] exactly
    in [SetState] with [StateRunning] in a systemd context; [Register]
    and [SetState] with any other state never announce readiness. *)
Theorem ready_only_when_running (q : string -> list string -> option error)
  (ss : Unix.systemdService) (state : ServiceState) :
  ((exists name args,
      Exec name args ∈ acts (Unix.systemd_SetState q ss state) /\
      "--ready" ∈ args) <->
   (Unix.systemdContext ss = true /\ state = StateRunning)) /\
  (forall name args,
     Exec name args ∈ acts (Unix.systemd_Register q ss) -> "--ready" ∉ args).
Proof.
  split; [split|].
  - intros (name & args & Hin & Hready).
    unfold Unix.systemd_SetState, Unix.quiet in Hin.
    destruct (Unix.systemdContext ss); simpl in Hin; [|set_solver].
    repeat case_decide; simpl in Hin; [done| |set_solver].
    apply list_elem_of_singleton in Hin. simplify_eq.
    apply list_elem_of_singleton in Hready. done.
  - intros [Hctx ->]. exists "systemd-notify". eexists.
    unfold Unix.systemd_SetState, Unix.quiet. rewrite Hctx. simpl.
    split; [apply list_elem_of_singleton; reflexivity|]. set_solver.
  - intros name args Hin Hready.
    unfold Unix.systemd_Register, Unix.quiet in Hin.
    destruct (Unix.systemdContext ss); simpl in Hin; [|set_solver].
    apply list_elem_of_singleton in Hin. simplify_eq.
    apply list_elem_of_singleton in Hready. done.
Qed.

(** In a systemd context [SetState] with [StateRunning] passes
    [--ready]. *)
Lemma ready_only_when_running_witness :
  (Unix.systemdContext (Unix.newServiceHandler Example.under_systemd) = true /\
   StateRunning = StateRunning) /\
  exists name args,
    Exec name args
    ∈ acts (Unix.systemd_SetState Example.notify_ok
              (Unix.newServiceHandler Example.under_systemd) StateRunning) /\
    "--ready" ∈ args.
Proof.
  assert (Hctx : Unix.systemdContext
                   (Unix.newServiceHandler Example.under_systemd) = true /\
                 StateRunning = StateRunning) by (split; reflexivity).
  split; [exact Hctx|].
  destruct (ready_only_when_running Example.notify_ok
              (Unix.newServiceHandler Example.under_systemd) StateRunning)
    as [[_ Hready] _].
  exact (Hready Hctx).
Defined.

(** X3.  [Register] on the Windows handler never blocks and calls
    [svc.Run] at most once.  After a [Register] that returned [nil],
    every further [Register] returns [nil] without calling [svc.Run],
    whatever [svc.Run] would do.  After a [Register] of a handler that
    was not initialized in which [svc.Run] failed, the handler is still
    not initialized, the error wraps the one of [svc.Run], and the next
    [Register] calls [svc.Run] again. *)
Theorem win_Register_once (ex : bool) (er : option error)
  (wh : Windows.winService) :
  (exists e tail,
     ret (Windows.win_Register ex er wh) = Returns e /\
     (acts (Windows.win_Register ex er wh) = [] \/
      acts (Windows.win_Register ex er wh) = SvcRun serviceName :: tail) /\
     SvcRun serviceName ∉ tail) /\
  (ret (Windows.win_Register ex er wh) = Returns None ->
   forall ex' er',
     Windows.win_Register ex' er' (after (Windows.win_Register ex er wh))
     = Result (Returns None) (after (Windows.win_Register ex er wh)) []) /\
  (forall e, Windows.initialized wh = false -> er = Some e ->
     ret (Windows.win_Register ex er wh)
     = Returns (Some ("failed to register windows service: " +:+ e)) /\
     Windows.initialized (after (Windows.win_Register ex er wh)) = false /\
     forall ex' er', exists sent,
       acts (Windows.win_Register ex' er'
               (after (Windows.win_Register ex er wh)))
       = SvcRun serviceName :: sent).
Proof.
  unfold Windows.win_Register.
  split; [|split].
  - destruct (Windows.initialized wh); simpl.
    + exists None, []. split; [done|]. split; [by left|set_solver].
    + destruct ex, er; simpl; eexists _, _;
        (split; [done|]); (split; [by right|]); set_solver.
  - destruct (Windows.initialized wh) eqn:Hinit; simpl.
    + intros _ ex' er'. by rewrite Hinit.
    + destruct ex, er; simpl; try done; intros _ ex' er'; done.
  - intros e Hinit ->. rewrite Hinit.
    destruct ex; simpl; rewrite Hinit; (split; [done|]); (split; [done|]);
      intros ex' er'; destruct ex', er'; simpl; eexists; done.
Qed.

(** A first [Register] under the service manager, then a second one
    while [svc.Run] would fail. *)
Lemma win_Register_once_witness :
  ret (Windows.win_Register true None Windows.newServiceHandler)
  = Returns None /\
  Windows.win_Register false (Some "not a service")
    (after (Windows.win_Register true None Windows.newServiceHandler))
  = Result (Returns None)
      (after (Windows.win_Register true None Windows.newServiceHandler)) [].
Proof.
  assert (Hok : ret (Windows.win_Register true None Windows.newServiceHandler)
                = Returns None) by reflexivity.
  split; [exact Hok|].
  destruct (win_Register_once true None Windows.newServiceHandler)
    as (_ & Hagain & _).
  exact (Hagain Hok false (Some "not a service")).
Defined.



End ServiceMore.

(* ===================================================================== *)
(** * Properties of the listeners of the Windows service *)
(* ===================================================================== *)

Module ListenersSpec.
Import Service Listeners.

#[local] Set Warnings "-clear-no-such-hyp".

Lemma interrogate_renews (s : selected) :
  (handleInterrogate s).1 = is_interrogate s.
Proof.
  destruct s as [[|req]|]; simpl; try done. by destruct (Cmd req).
Qed.

Lemma interrogate_effects (s : selected) :
  (handleInterrogate s).2
  = if is_interrogate s then option_list (echo s) else [].
Proof.
  destruct s as [[|req]|]; simpl; try done. by destruct (Cmd req).
Qed.

Lemma termination_renews (r : received) :
  (handleTermination r).1 = is_ignored r.
Proof. destruct r as [|req]; simpl; try done. by destruct (Cmd req). Qed.

Lemma termination_effects (r : received) :
  (handleTermination r).2 = if is_stop r then [SignalDone] else [].
Proof. destruct r as [|req]; simpl; try done. by destruct (Cmd req). Qed.

Lemma interrogate_loop_cons (s : selected) (rest : list selected) :
  interrogate_loop (s :: rest)
  = if is_interrogate s
    then (option_list (echo s) ++ (interrogate_loop rest).1,
          (interrogate_loop rest).2)
    else ([], Some rest).
Proof.
  pose proof (interrogate_renews s) as Hr.
  pose proof (interrogate_effects s) as He.
  simpl. destruct (handleInterrogate s) as [renew es]. simpl in *. subst.
  destruct (is_interrogate s); [|done].
  by destruct (interrogate_loop rest).
Qed.

Lemma termination_loop_cons (r : received) (rest : list received) :
  termination_loop (r :: rest)
  = if is_ignored r
    then ((termination_loop rest).1, (termination_loop rest).2)
    else (if is_stop r then [SignalDone] else [], Some rest).
Proof.
  pose proof (termination_renews r) as Hr.
  pose proof (termination_effects r) as He.
  simpl. destruct (handleTermination r) as [renew es]. simpl in *. subst.
  destruct (is_ignored r) eqn:Hig.
  - assert (is_stop r = false) as ->.
    { destruct r as [|req]; [done|]. simpl in *. by destruct (Cmd req). }
    by destruct (termination_loop rest).
  - done.
Qed.

(** X5.  The interrogate listener, as a function of what its successive
    [select]s deliver: it answers the interrogate requests it receives in
    a row, each with the [CurrentStatus] of the request, in order, and
    ends at the first delivery that is not an interrogate request (a
    value from [doneChan], nothing ready, or another command, which it
    takes without answering); with only interrogate requests it is still
    running.  It never sends on [doneChan]. *)
Theorem interrogate_loop_answers (reqs rest : list selected) :
  Forall (fun s => is_interrogate s = true) reqs ->
  match rest with
  | [] => True
  | s :: _ => is_interrogate s = false
  end ->
  interrogate_loop (reqs ++ rest)
  = (omap echo reqs,
     match rest with
     | [] => None
     | _ :: rest' => Some rest'
     end) /\
  SignalDone ∉ (interrogate_loop (reqs ++ rest)).1.
Proof.
  intros Hreqs Hrest.
  assert (Heq : interrogate_loop (reqs ++ rest)
                = (omap echo reqs,
                   match rest with
                   | [] => None
                   | _ :: rest' => Some rest'
                   end)).
  { induction Hreqs as [|s reqs Hs _ IH]; simpl app.
    - destruct rest as [|s rest']; [done|].
      rewrite interrogate_loop_cons, Hrest. done.
    - rewrite interrogate_loop_cons, Hs, IH. simpl.
      destruct s as [[|req]|]; try done. }
  split; [exact Heq|]. rewrite Heq. simpl.
  intros Hin. apply list_elem_of_omap in Hin as (s & _ & Hs).
  by destruct s as [[|req]|].
Qed.

(** Two interrogate requests, then a stop request, then one more
    interrogate request. *)
Lemma interrogate_loop_answers_witness :
  interrogate_loop
    ([Ready (FromRequest {| Cmd := Interrogate;
                            CurrentStatus := {| State := StartPending;
                                                Accepts := 0 |} |});
      Ready (FromRequest {| Cmd := Interrogate;
                            CurrentStatus := {| State := Running;
                                                Accepts := 5 |} |})] ++
     [Ready (FromRequest {| Cmd := Stop;
                            CurrentStatus := {| State := Running;
                                                Accepts := 5 |} |});
      Ready (FromRequest {| Cmd := Interrogate;
                            CurrentStatus := {| State := Running;
                                                Accepts := 5 |} |})])
  = ([Reply {| State := StartPending; Accepts := 0 |};
      Reply {| State := Running; Accepts := 5 |}],
     Some [Ready (FromRequest {| Cmd := Interrogate;
                                 CurrentStatus := {| State := Running;
                                                     Accepts := 5 |} |})]).
Proof.
  refine (proj1 (interrogate_loop_answers _ _ _ _)).
  - repeat constructor.
  - reflexivity.
Defined.

(** X6.  The termination listener, as a function of what its successive
    [select]s receive: it takes every request that is neither stop nor
    shutdown without doing anything and goes on; at the first stop or
    shutdown request it sends [true] on [doneChan] once and ends; at a
    value from [doneChan] it ends without sending; with only other
    requests it is still running and has done nothing.  It never sends a
    status. *)
Theorem termination_loop_signals (pre : list received) :
  Forall (fun r => is_ignored r = true) pre ->
  termination_loop pre = ([], None) /\
  (forall r rest, is_ignored r = false ->
     termination_loop (pre ++ r :: rest)
     = (if is_stop r then [SignalDone] else [], Some rest) /\
     (is_stop r = false -> r = FromDone)) /\
  (forall obs st, Reply st ∉ (termination_loop obs).1).
Proof.
  intros Hpre. split; [|split].
  - induction Hpre as [|r pre Hr _ IH]; [done|].
    rewrite termination_loop_cons, Hr, IH. done.
  - intros r rest Hr. split.
    + induction Hpre as [|r0 pre Hr0 _ IH]; simpl app.
      * rewrite termination_loop_cons, Hr. done.
      * rewrite termination_loop_cons, Hr0, IH. done.
    + destruct r as [|req]; [done|]. simpl in *. by destruct (Cmd req).
  - clear. intros obs st. induction obs as [|r obs IH]; [set_solver|].
    rewrite termination_loop_cons.
    destruct (is_ignored r); [done|].
    destruct (is_stop r); set_solver.
Qed.

(** An interrogate request (which this listener drops), then a shutdown
    request, then one more request. *)
Lemma termination_loop_signals_witness :
  Forall (fun r => is_ignored r = true)
    [FromRequest {| Cmd := Interrogate;
                    CurrentStatus := {| State := Running; Accepts := 5 |} |}] /\
  termination_loop
    ([FromRequest {| Cmd := Interrogate;
                     CurrentStatus := {| State := Running; Accepts := 5 |} |}] ++
     FromRequest {| Cmd := Shutdown;
                    CurrentStatus := {| State := Running; Accepts := 5 |} |}
     :: [FromRequest {| Cmd := Stop;
                        CurrentStatus := {| State := Running;
                                            Accepts := 5 |} |}])
  = ([SignalDone],
     Some [FromRequest {| Cmd := Stop;
                          CurrentStatus := {| State := Running;
                                              Accepts := 5 |} |}]).
Proof.
  assert (Hpre : Forall (fun r => is_ignored r = true)
                   [FromRequest {| Cmd := Interrogate;
                                   CurrentStatus := {| State := Running;
                                                       Accepts := 5 |} |}])
    by (repeat constructor).
  split; [exact Hpre|].
  destruct (termination_loop_signals _ Hpre) as (_ & Hstop & _).
  refine (proj1 (Hstop _ _ _)). reflexivity.
Defined.

End ListenersSpec.

(* ===================================================================== *)
(** * Further properties of configuration loading *)
(* ===================================================================== *)

Module IniMore.
Import Ini Observe.

#[local] Set Warnings "-clear-no-such-hyp".

Abbreviation opts := {| Loose := true; Insensitive := true |}.

Lemma lower_idem (c : Ascii.ascii) : lower (lower c) = lower c.
Proof. destruct c as [[] [] [] [] [] [] [] []]; reflexivity. Qed.

Lemma ToLower_idem (s : string) : ToLower (ToLower s) = ToLower s.
Proof. induction s as [|c s IH]; simpl; [done|]. by rewrite lower_idem, IH. Qed.

Lemma parse_cons (f : gmap (string * string) string)
  (e : string * string * string) (kvs : list (string * string * string)) :
  parse opts f (e :: kvs) = parse opts (NewKey opts f e) kvs.
Proof. reflexivity. Qed.

(** What [parse] puts into an empty file: the lowercased names of the
    entries, each with the value of its last entry. *)
Lemma parse_sound (kvs : list (string * string * string))
  (sec key v : string) :
  parse opts ∅ kvs !! (sec, key) = Some v ->
  exists s k, (s, k, v) ∈ kvs /\ ToLower s = sec /\ ToLower k = key.
Proof.
  induction kvs as [|[[s k] v0] kvs IH];
    [unfold parse; simpl; by rewrite lookup_empty|].
  rewrite parse_cons, IniSpec.parse_lookup.
  destruct (parse opts ∅ kvs !! (sec, key)) as [v1|] eqn:Hrest.
  - intros [= ->]. destruct (IH eq_refl) as (s1 & k1 & Hin & Hs & Hk).
    exists s1, k1. split; [by right|done].
  - unfold NewKey, name. simpl. rewrite lookup_insert. case_decide as Heq.
    + intros [= ->]. simplify_eq. exists s, k. split; [by left|done].
    + by rewrite lookup_empty.
Qed.

Lemma parse_complete (kvs : list (string * string * string))
  (s k v : string) :
  (s, k, v) ∈ kvs -> is_Some (parse opts ∅ kvs !! (ToLower s, ToLower k)).
Proof.
  induction kvs as [|[[s0 k0] v0] kvs IH]; [by intros ?%elem_of_nil|].
  intros Hin. rewrite parse_cons, IniSpec.parse_lookup.
  destruct (parse opts ∅ kvs !! (ToLower s, ToLower k)) as [v1|]
    eqn:Hrest; [by eexists|].
  apply elem_of_cons in Hin as [Heq|Hin].
  - simplify_eq. unfold NewKey, name. simpl. rewrite lookup_insert_eq.
    by eexists.
  - destruct (IH Hin) as [v1 Hv1]. congruence.
Qed.

(** With [Loose], the sources that are not there count as empty. *)
Lemma reload_layers (fs : gmap string content) (srcs : list string)
  (f : gmap (string * string) string) :
  Forall (fun p => ~ malformed fs p) srcs ->
  reload opts fs srcs f
  = inr (foldl (fun f p => parse opts f (entries_at fs p)) f srcs).
Proof.
  intros Hok. revert f. induction Hok as [|p srcs Hp _ IH]; intros f; [done|].
  simpl. unfold malformed, entries_at in *.
  destruct (fs !! p) as [[|kvs]|]; simpl; [done|apply IH|apply IH].
Qed.

Lemma reload_fails (fs : gmap string content) (srcs : list string)
  (f : gmap (string * string) string) (e : loadError) :
  reload opts fs srcs f = inl e ->
  exists pre p post,
    srcs = pre ++ p :: post /\ Forall (fun q => ~ malformed fs q) pre /\
    malformed fs p /\ e = ErrParse p.
Proof.
  revert f. induction srcs as [|p srcs IH]; intros f; simpl; [done|].
  destruct (fs !! p) as [[|kvs]|] eqn:Hp; simpl.
  - intros [= <-]. exists [], p, srcs. by repeat split.
  - intros Hrest. destruct (IH _ Hrest) as (pre & q & post & -> & Hpre & Hq & ->).
    exists (p :: pre), q, post. repeat split; [|done].
    constructor; [|done]. unfold malformed. by rewrite Hp.
  - intros Hrest. destruct (IH _ Hrest) as (pre & q & post & -> & Hpre & Hq & ->).
    exists (p :: pre), q, post. repeat split; [|done].
    constructor; [|done]. unfold malformed. by rewrite Hp.
Qed.

Lemma parseConfig_reload (file : string) (fs : gmap string content) :
  parseConfig file fs = reload opts fs (sources file) ∅.
Proof.
  unfold parseConfig, LoadSources, sources.
  by destruct (reload _ _ _ _).
Qed.

Lemma parseConfig_inr (file : string) (fs : gmap string content) :
  (exists cfg, parseConfig file fs = inr cfg) <->
  Forall (fun p => ~ malformed fs p) (sources file).
Proof.
  rewrite parseConfig_reload. split.
  - intros [cfg Hcfg]. unfold sources in *. simpl in Hcfg.
    destruct (fs !! file) as [[|kvs1]|] eqn:H1; [done| |];
      (destruct (fs !! (file +:+ ".distro")) as [[|kvs2]|] eqn:H2; [done| |]);
      (destruct (fs !! (file +:+ ".template")) as [[|kvs3]|] eqn:H3;
       [done| |]);
      repeat constructor; unfold malformed; congruence.
  - intros Hok. rewrite (reload_layers _ _ _ Hok). by eexists.
Qed.

Lemma parseConfig_inl (file : string) (fs : gmap string content)
  (e : loadError) :
  parseConfig file fs = inl e ->
  IsNotExist e = false /\
  exists p, p ∈ sources file /\ malformed fs p /\ e = ErrParse p.
Proof.
  rewrite parseConfig_reload. intros He.
  destruct (reload_fails _ _ _ _ He) as (pre & p & post & Hsrc & _ & Hp & ->).
  split; [done|]. exists p. split; [|done]. rewrite Hsrc. set_solver.
Qed.

(** X7.  [parseConfig] succeeds exactly when none of [file],
    [file.distro], [file.template] is present with text that does not
    parse: files that are missing are tolerated, whichever they are.  When
    it fails, the error is the parse error of the first of the three, in
    that order, that does not parse, and it is never a "does not exist"
    error (so the test [!os.IsNotExist(err)] of [runAgent] holds for
    every error [parseConfig] returns). *)
Theorem parseConfig_fails_on_first_malformed (file : string)
  (fs : gmap string content) :
  ((exists cfg, parseConfig file fs = inr cfg) <->
   Forall (fun p => ~ malformed fs p) (sources file)) /\
  (forall e, parseConfig file fs = inl e ->
     IsNotExist e = false /\
     exists pre p post,
       sources file = pre ++ p :: post /\
       Forall (fun q => ~ malformed fs q) pre /\
       malformed fs p /\ e = ErrParse p).
Proof.
  rewrite parseConfig_reload. split; [split|].
  - intros [cfg Hcfg]. unfold sources in *. simpl in Hcfg.
    destruct (fs !! file) as [[|kvs1]|] eqn:H1; [done| |];
      (destruct (fs !! (file +:+ ".distro")) as [[|kvs2]|] eqn:H2; [done| |]);
      (destruct (fs !! (file +:+ ".template")) as [[|kvs3]|] eqn:H3;
       [done| |]);
      repeat constructor; unfold malformed; congruence.
  - intros Hok. rewrite (reload_layers _ _ _ Hok). by eexists.
  - intros e He. destruct (reload_fails _ _ _ _ He)
      as (pre & p & post & Hsrc & Hpre & Hp & ->).
    split; [done|]. by exists pre, p, post.
Qed.

(** The base file and the template are fine, the distro file is not. *)
Lemma parseConfig_fails_on_first_malformed_witness :
  parseConfig "instance_configs.cfg"
    {[ "instance_configs.cfg" := Entries [("Accounts", "groups", "adm")];
       "instance_configs.cfg.distro" := Malformed;
       "instance_configs.cfg.template" := Entries [] ]}
  = inl (ErrParse "instance_configs.cfg.distro") /\
  IsNotExist (ErrParse "instance_configs.cfg.distro") = false.
Proof.
  assert (He : parseConfig "instance_configs.cfg"
                 {[ "instance_configs.cfg" :=
                      Entries [("Accounts", "groups", "adm")];
                    "instance_configs.cfg.distro" := Malformed;
                    "instance_configs.cfg.template" := Entries [] ]}
               = inl (ErrParse "instance_configs.cfg.distro"))
    by (vm_compute; reflexivity).
  split; [exact He|].
  destruct (parseConfig_fails_on_first_malformed "instance_configs.cfg"
              {[ "instance_configs.cfg" :=
                   Entries [("Accounts", "groups", "adm")];
                 "instance_configs.cfg.distro" := Malformed;
                 "instance_configs.cfg.template" := Entries [] ]})
    as [_ Hfail].
  exact (proj1 (Hfail _ He)).
Defined.





End IniMore.

(* ===================================================================== *)
(** * Further properties of [runUpdate], the handler and [runAgent] *)
(* ===================================================================== *)

Module AgentMore.
Import Agent Observe.

#[local] Set Warnings "-clear-no-such-hyp".

Lemma pending_le_length (ts : list task) :
  pending ts <= Z.of_nat (length ts).
Proof.
  induction ts as [|t ts IH]; simpl; [lia|]. destruct (finished t); lia.
Qed.

(** The calls of a goroutine that satisfies [task_ok] come in the order
    of the body, each at most once. *)
Lemma task_ok_ranked (goos : string) (t : task) :
  task_ok goos t -> omap method_of (hist t) `sublist_of` body.
Proof.
  destruct t as [p h]. unfold task_ok, after_body, before_set, set_log. simpl.
  intros Hok. destruct p;
    repeat match goal with
           | H : _ \/ _ |- _ => destruct H
           | H : _ /\ _ |- _ => destruct H
           | H : ex _ |- _ => destruct H
           | r : option error |- _ => destruct r
           end;
    simplify_eq/=; unfold body;
    eauto 12 using sublist_nil, sublist_skip, sublist_cons.
Qed.

(** A log line of a goroutine says what the call before it returned. *)
Lemma task_ok_logged (goos : string) (t : task) :
  task_ok goos t ->
  (Log LogDisabledSkipping ∈ hist t <-> CallDisabled goos true ∈ hist t) /\
  (Log LogNoDiff ∈ hist t <-> CallDiff false ∈ hist t) /\
  (forall e, Log (LogErrorRunning e) ∈ hist t <-> CallSet (Some e) ∈ hist t).
Proof. intros Hok. revert Hok. AgentSpec.history_cases t. Qed.

Section RunUpdate.

Variables (Descriptor OS : Type).
Variable goos : string.
Variable impl : mgrKind -> manager Descriptor OS.

Implicit Types (g : Globals Descriptor) (os : OS).
Implicit Types (cs : list (choice Descriptor OS)).
Implicit Types (cf : running Descriptor OS).

Local Abbreviation mgrs := (managers Descriptor OS goos impl).
Local Abbreviation after := (runUpdate_after goos impl).

Lemma after_task_ok cs g os i t :
  tasks (c_pass (after cs g os)) !! i = Some t -> task_ok goos t.
Proof.
  intros Ht. destruct (AgentSpec.after_ok _ _ goos impl cs g os)
    as (_ & Hts & _).
  by eapply (Forall_lookup_1 _ _ _ _ Hts).
Qed.

(** X10.  In every execution of [runUpdate] the counter of the wait group
    is the number of goroutines launched that have not yet run their
    deferred [wg.Done()]: it is never negative (so [wg.Done()] never
    panics), never more than the number of managers, and zero when
    [runUpdate] has returned. *)
Theorem wait_group_counts_pending cs g os :
  wg (c_pass (after cs g os)) = pending (tasks (c_pass (after cs g os))) /\
  0 <= wg (c_pass (after cs g os))
    <= Z.of_nat (length (platform_mgrs goos)) /\
  (main (c_pass (after cs g os)) = Returned ->
   wg (c_pass (after cs g os)) = 0).
Proof.
  destruct (AgentSpec.after_ok _ _ goos impl cs g os) as (Hwg & _ & Hmain).
  assert (Hlen : length mgrs = length (platform_mgrs goos))
    by apply length_fmap.
  split; [done|]. split.
  - rewrite Hwg.
    pose proof (AgentSpec.pending_nonneg (tasks (c_pass (after cs g os)))).
    pose proof (pending_le_length (tasks (c_pass (after cs g os)))).
    destruct (main (c_pass (after cs g os))); lia.
  - intros Hret. rewrite Hret in Hmain. by destruct Hmain.
Qed.

(** X11.  In every execution of [runUpdate], the goroutine of a manager
    makes its calls in the order of the body, [disabled], [timeout],
    [diff], [set], [wg.Done()], and makes each of them at most once: no
    manager has [set] (or any other method) called twice in one call of
    [runUpdate], and nothing is called after [wg.Done()]. *)
Theorem methods_once_in_order cs g os i t :
  tasks (c_pass (after cs g os)) !! i = Some t ->
  omap method_of (hist t) `sublist_of` body.
Proof. intros Ht. apply (task_ok_ranked goos). by eapply after_task_ok. Qed.

(** X12.  In every execution of [runUpdate], the log lines of a goroutine
    say what happened: "disabled, skipping" is logged exactly when
    [disabled] returned true, "reports no diff" exactly when [diff]
    returned false, and an error line exactly for an error that [set]
    returned, with that error. *)
Theorem log_lines_match_calls cs g os i t :
  tasks (c_pass (runUpdate_after goos impl cs g os)) !! i = Some t ->
  (Log LogDisabledSkipping ∈ hist t <-> CallDisabled goos true ∈ hist t) /\
  (Log LogNoDiff ∈ hist t <-> CallDiff false ∈ hist t) /\
  (forall e, Log (LogErrorRunning e) ∈ hist t <-> CallSet (Some e) ∈ hist t).
Proof. intros Ht. apply task_ok_logged. by eapply after_task_ok. Qed.

Lemma moves_fuel cs cf :
  pass_ok goos mgrs (c_pass cf) ->
  (moves goos mgrs cs cf + fuel mgrs (c_pass (exec goos mgrs cs cf))
   <= fuel mgrs (c_pass cf))%nat.
Proof.
  revert cf. induction cs as [|c cs IH]; intros cf Hok; simpl; [lia|].
  pose proof (IH (exec1 goos mgrs cf c)
                 (AgentSpec.exec1_ok _ _ goos mgrs cf c Hok)) as Hrest.
  change (exec goos mgrs (c :: cs) cf)
    with (exec goos mgrs cs (exec1 goos mgrs cf c)).
  assert (Hone : ((if moved goos mgrs cf c then 1 else 0)
                  + fuel mgrs (c_pass (exec1 goos mgrs cf c))
                  <= fuel mgrs (c_pass cf))%nat).
  { destruct c as [th|g os]; simpl; [|lia].
    destruct (step goos mgrs (c_globals cf) th (c_pass cf) (c_os cf))
      as [[p os]|] eqn:Hstep; simpl; [|lia].
    pose proof (AgentSpec.step_fuel _ _ _ _ _ _ _ _ _ _ Hok Hstep). lia. }
  lia.
Qed.


End RunUpdate.

(** ** The handler and the events *)

Section Handler.

Variables (Descriptor OS : Type).
Variable goos : string.
Variable impl : mgrKind -> manager Descriptor OS.

Implicit Types (g : Globals Descriptor) (os : OS) (p : pass) (th : tid).
Implicit Types (hs : handler_state Descriptor).
Implicit Types (a : agent Descriptor OS).
Implicit Types (acts : list (action Descriptor)).
Implicit Types (evData : EventData Descriptor).
Implicit Types (evs : list (EventData Descriptor)).

Local Abbreviation mgrs := (managers Descriptor OS goos impl).
Local Abbreviation hstep := (handler_step goos impl).
Local Abbreviation run := (agent_run goos impl).

(** What a step of a call of the handler does to the package-level
    variables: the entry with a snapshot sets [newMetadata], the step
    after [runUpdate] sets [oldMetadata], every other step leaves them
    alone. *)
Lemma hstep_globals g os th hs hs' g' os' :
  hstep g os th hs = Some (hs', g', os') ->
  (g' = g /\ in_update hs' = in_update hs /\
   (forall evData, hs = Called evData -> snapshot evData = None)) \/
  (exists evData d,
     hs = Called evData /\ snapshot evData = Some d /\
     in_update hs' = true /\
     g' = {| oldMetadata := oldMetadata g; newMetadata := Some d;
             config := config g |}) \/
  (exists p,
     hs = InRunUpdate p /\ hs' = HReturned true (Some p) /\
     g' = {| oldMetadata := newMetadata g; newMetadata := newMetadata g;
             config := config g |}).
Proof.
  unfold handler_step, snapshot. intros Hstep.
  destruct hs as [evData|p|keep u]; [| |done].
  - destruct th; [|done].
    destruct (Error evData) eqn:He; simplify_eq.
    { left. split; [done|]. split; [done|]. intros ev [= <-]. by rewrite He. }
    destruct (Data evData) as [d|] eqn:Hd; simplify_eq.
    + right; left. exists evData, d. by rewrite He.
    + left. split; [done|]. split; [done|]. intros ev [= <-]. by rewrite He.
  - destruct (main p); destruct th;
      try (destruct (step goos mgrs g _ p os) as [[p' o]|]; simplify_eq;
           left; split; [done|]; split; done).
    simplify_eq. right; right. by eexists.
Qed.

Lemma hstep_follows evData g os th hs hs' g' os' :
  follows evData hs ->
  hstep g os th hs = Some (hs', g', os') ->
  follows evData hs'.
Proof.
  unfold handler_step, follows, snapshot. intros Hf Hstep.
  destruct hs as [ev|p|keep u]; [| |done].
  - subst ev. destruct th; [|done].
    destruct (Error evData) eqn:He; simplify_eq; [done|].
    destruct (Data evData) as [d|] eqn:Hd; simplify_eq; [|done].
    by eexists.
  - destruct (main p); destruct th;
      try (destruct (step goos mgrs g _ p os) as [[p' o]|]; by simplify_eq).
    by simplify_eq.
Qed.

Lemma agent_step_follows evs a act :
  Forall2 follows evs (handlers a) ->
  Forall2 follows (evs ++ deliveries [act])
          (handlers (agent_step goos impl a act)).
Proof.
  intros Hall. destruct act as [evData|h th]; simpl.
  - apply Forall2_app; [done|]. by repeat constructor.
  - rewrite app_nil_r.
    destruct (handlers a !! h) as [hs|] eqn:Hh; [|done].
    destruct (hstep (globals a) (host a) th hs) as [[[hs' g'] os']|] eqn:Hs;
      [|done].
    simpl. destruct (Forall2_lookup_r _ _ _ _ _ Hall Hh) as (ev & Hev & Hf).
    rewrite <- (list_insert_id evs h ev Hev).
    apply Forall2_insert; [done|]. by eapply hstep_follows.
Qed.

Lemma deliveries_cons (act : action Descriptor) acts :
  deliveries (act :: acts) = deliveries [act] ++ deliveries acts.
Proof. unfold deliveries. simpl. by destruct act. Qed.

Lemma run_follows acts evs a :
  Forall2 follows evs (handlers a) ->
  Forall2 follows (evs ++ deliveries acts) (handlers (run acts a)).
Proof.
  revert evs a. induction acts as [|act acts IH]; intros evs a Hall.
  - by rewrite app_nil_r.
  - rewrite deliveries_cons, app_assoc. apply IH.
    by apply agent_step_follows.
Qed.

(** X14.  In every execution of the agent after the subscription, the
    calls of the handler are, in order, the calls for the events
    delivered: a call for an event with [Error] set, or without [Data],
    never enters [runUpdate] and returns true; a call for any other event
    enters [runUpdate] (and only such a call does), and returns true
    after it; no call of the handler ever returns false. *)
Theorem handler_calls_follow_events a acts :
  handlers a = [] ->
  Forall2 follows (deliveries acts) (handlers (run acts a)) /\
  length (handlers (run acts a)) = length (deliveries acts) /\
  (forall h keep u, handlers (run acts a) !! h = Some (HReturned keep u) ->
     keep = true).
Proof.
  intros Hnil.
  assert (Hall : Forall2 follows (deliveries acts) (handlers (run acts a))).
  { apply (run_follows acts [] a). rewrite Hnil. constructor. }
  split; [done|]. split; [symmetry; by eapply Forall2_length|].
  intros h keep u Hh.
  destruct (Forall2_lookup_r _ _ _ _ _ Hall Hh) as (ev & _ & Hf).
  simpl in Hf. destruct u; by destruct Hf.
Qed.

Lemma snapshot_mono evs evs' (d : Descriptor) :
  d ∈ omap snapshot evs -> d ∈ omap snapshot (evs ++ evs').
Proof. rewrite omap_app. set_solver. Qed.

Lemma agent_step_from_events g0 evs a act :
  from_events g0 evs a ->
  from_events g0 (evs ++ deliveries [act]) (agent_step goos impl a act).
Proof.
  intros (Hall & Hcfg & Hold & Hnew & Hin).
  split; [by apply agent_step_follows|].
  destruct act as [evData|h th]; simpl.
  - split; [done|]. split; [|split].
    + destruct Hold as [?|(d & ? & ?)]; [by left|].
      right. exists d. split; [done|]. by apply snapshot_mono.
    + destruct Hnew as [?|(d & ? & ?)]; [by left|].
      right. exists d. split; [done|]. by apply snapshot_mono.
    + intros Hex. apply Exists_app in Hex as [Hex|Hex].
      * destruct (Hin Hex) as (d & ? & ?).
        exists d. split; [done|]. by apply snapshot_mono.
      * apply Exists_cons in Hex as [Hex|Hex]; [done|].
        by apply Exists_nil in Hex.
  - rewrite app_nil_r.
    destruct (handlers a !! h) as [hs|] eqn:Hh; [|done].
    destruct (hstep (globals a) (host a) th hs) as [[[hs' g'] os']|] eqn:Hs;
      [|done].
    simpl.
    assert (Hhere : in_update hs = true ->
                    exists d, newMetadata (globals a) = Some d /\
                              d ∈ omap snapshot evs).
    { intros Hup. apply Hin. apply Exists_exists. exists hs.
      split; [by eapply list_elem_of_lookup_2|done]. }
    destruct (hstep_globals _ _ _ _ _ _ _ Hs)
      as [(-> & Hup & _)|[(ev & d & -> & Hd & Hup & ->)|(p & -> & -> & ->)]].
    + split; [done|]. split; [done|]. split; [done|].
      intros Hex. apply AgentSpec.Exists_insert_inv in Hex as [Hex|Hex];
        [|by apply Hin].
      apply Hhere. congruence.
    + destruct (Forall2_lookup_r _ _ _ _ _ Hall Hh) as (ev' & Hev & Hf).
      simpl in Hf. subst ev'.
      assert (Hd_in : d ∈ omap snapshot evs).
      { apply list_elem_of_omap. exists ev.
        split; [by eapply list_elem_of_lookup_2|done]. }
      simpl. split; [done|]. split; [done|].
      split; [right; by exists d|]. intros _. by exists d.
    + destruct (Hhere eq_refl) as (d & Hd & Hd_in).
      simpl. split; [done|]. rewrite Hd.
      split; [right; by exists d|]. split; [right; by exists d|].
      intros _. by exists d.
Qed.

Lemma run_from_events g0 acts evs a :
  from_events g0 evs a ->
  from_events g0 (evs ++ deliveries acts) (run acts a).
Proof.
  revert evs a. induction acts as [|act acts IH]; intros evs a Hinv.
  - by rewrite app_nil_r.
  - rewrite deliveries_cons, app_assoc. apply IH.
    by apply agent_step_from_events.
Qed.

(** X15.  In every execution of the agent after the subscription,
    [newMetadata] is what it was at the subscription or a snapshot
    delivered by an event without [Error], and so is [oldMetadata]; the
    [Data] of an event whose [Error] is set is never stored; and the
    configuration is never changed. *)
Theorem snapshots_come_from_events a acts :
  handlers a = [] ->
  config (globals (run acts a)) = config (globals a) /\
  (oldMetadata (globals (run acts a)) = oldMetadata (globals a) \/
   exists d, oldMetadata (globals (run acts a)) = Some d /\
             d ∈ accepted acts) /\
  (newMetadata (globals (run acts a)) = newMetadata (globals a) \/
   exists d, newMetadata (globals (run acts a)) = Some d /\
             d ∈ accepted acts).
Proof.
  intros Hnil.
  assert (Hstart : from_events (globals a) [] a).
  { unfold from_events. rewrite Hnil.
    split; [constructor|]. split; [done|]. split; [by left|].
    split; [by left|]. intros Hex. by apply Exists_nil in Hex. }
  destruct (run_from_events (globals a) acts [] a Hstart)
    as (_ & Hcfg & Hold & Hnew & _).
  done.
Qed.

(** The state of the agent while only the handler of one event moves. *)
Lemma agent_step_alone g0 (d : Descriptor) evData (h : nat) a th :
  snapshot evData = Some d ->
  (exists hs, handlers a !! h = Some hs /\ follows evData hs /\
              alone g0 d hs (globals a)) ->
  (exists hs, handlers (agent_step goos impl a (Run h th)) !! h = Some hs /\
              follows evData hs /\
              alone g0 d hs (globals (agent_step goos impl a (Run h th)))) /\
  take h (handlers (agent_step goos impl a (Run h th))) = take h (handlers a).
Proof.
  intros Hd (hs & Hh & Hf & Hal). simpl. rewrite Hh.
  destruct (hstep (globals a) (host a) th hs) as [[[hs' g'] os']|] eqn:Hs;
    [|split; [by exists hs|done]].
  simpl. split; [|by rewrite take_insert_ge].
  exists hs'. split; [apply list_lookup_insert_eq; by eapply lookup_lt_Some|].
  split; [by eapply hstep_follows|].
  destruct (hstep_globals _ _ _ _ _ _ _ Hs)
    as [(-> & Hup & Hno)|[(ev & d' & -> & Hd' & Hup & ->)|(p & -> & -> & ->)]].
  - destruct hs as [ev|p|keep u].
    + simpl in Hf. subst ev. rewrite (Hno evData eq_refl) in Hd. done.
    + by destruct hs'.
    + by destruct hs'.
  - simpl in Hf, Hal. subst ev. rewrite Hd in Hd'. simplify_eq.
    by destruct hs'.
  - simpl in Hal. rewrite Hal. done.
Qed.

(** X16.  When an event brings a snapshot and only the handler of that
    event moves (no other call of the handler is running), the
    package-level variables are as they were until the handler has
    stored the snapshot; during its whole [runUpdate] [oldMetadata] is
    still the previous value and [newMetadata] is the snapshot, so the
    managers compare the previous snapshot with the new one; and once the
    handler has returned both are the snapshot.  The earlier calls of the
    handler are left as they are. *)
Theorem handler_alone_snapshots a evData (d : Descriptor) (ths : list tid) :
  snapshot evData = Some d ->
  (exists hs,
     handlers (run (Deliver evData :: (Run (length (handlers a)) <$> ths)) a)
       !! length (handlers a) = Some hs /\
     follows evData hs /\
     alone (globals a) d hs
       (globals (run (Deliver evData
                        :: (Run (length (handlers a)) <$> ths)) a))) /\
  take (length (handlers a))
       (handlers (run (Deliver evData
                         :: (Run (length (handlers a)) <$> ths)) a))
  = handlers a.
Proof.
  intros Hd. unfold agent_run. simpl.
  set (a1 := {| globals := globals a; host := host a;
                watchers := watchers a;
                handlers := handlers a ++ [Called evData] |}).
  assert (H1 : (exists hs, handlers a1 !! length (handlers a) = Some hs /\
                           follows evData hs /\
                           alone (globals a) d hs (globals a1)) /\
               take (length (handlers a)) (handlers a1) = handlers a).
  { split.
    - exists (Called evData). simpl.
      split; [|done]. by rewrite lookup_app_r, Nat.sub_diag.
    - simpl. by rewrite take_app_length. }
  clearbody a1. revert a1 H1.
  induction ths as [|th ths IH]; intros a1 [Hhs Htake]; [done|].
  simpl. apply IH.
  destruct (agent_step_alone (globals a) d evData (length (handlers a))
              a1 th Hd Hhs) as [Hhs' Htake'].
  split; [done|]. simpl in Htake'. by rewrite Htake'.
Qed.

(** ** Start-up *)

Section Startup.

Variable getOSLoginEnabled : option Descriptor -> bool * bool * bool.
Variables mdsEvent_WatcherID sshtrustedca_WatcherID : string.
Variable emptyDescriptor : Descriptor.

Context {H : Type} (I : Service.serviceHandler H) (svc : Service.Manager H).

Local Abbreviation start :=
  (runAgent_start Descriptor OS goos getOSLoginEnabled mdsEvent_WatcherID
                  sshtrustedca_WatcherID emptyDescriptor I svc).

Implicit Types (env : startup Descriptor OS).

(** How [runAgent] got to each of its results. *)
Lemma start_cases env g0 os0 :
  match start env g0 os0 with
  | Fails (ErrLogger e) => logger_Init _ _ env = Some e
  | Fails (ErrConfig f e) =>
      logger_Init _ _ env = None /\ f = config_file goos /\
      Ini.parseConfig (config_file goos) (files _ _ env) = inl e
  | Fails (ErrSetState e) =>
      logger_Init _ _ env = None /\
      Forall (fun path : string => ~ malformed (files _ _ env) path)
             (sources (config_file goos)) /\
      Service.ret (Service.Manager_SetState I svc Service.StateRunning)
      = Service.Returns (Some e)
  | Hangs =>
      logger_Init _ _ env = None /\
      Forall (fun path : string => ~ malformed (files _ _ env) path)
             (sources (config_file goos)) /\
      Service.ret (Service.Manager_SetState I svc Service.StateRunning)
      = Service.Blocks
  | Fails (ErrEventManager e) =>
      logger_Init _ _ env = None /\
      Forall (fun path : string => ~ malformed (files _ _ env) path)
             (sources (config_file goos)) /\
      Service.ret (Service.Manager_SetState I svc Service.StateRunning)
      = Service.Returns None /\
      events_New _ _ env = Some e
  | Subscribed a =>
      logger_Init _ _ env = None /\
      Forall (fun path : string => ~ malformed (files _ _ env) path)
             (sources (config_file goos)) /\
      Service.ret (Service.Manager_SetState I svc Service.StateRunning)
      = Service.Returns None /\
      events_New _ _ env = None
  end.
Proof.
  unfold runAgent_start. fold (config_file goos).
  destruct (logger_Init _ _ env) as [e|] eqn:Hlog; [done|].
  destruct (Ini.parseConfig (config_file goos) (files _ _ env))
    as [err|cfg] eqn:Hcfg.
  { destruct (IniMore.parseConfig_inl _ _ _ Hcfg) as [-> _]. done. }
  assert (Hok : Forall (fun path : string => ~ malformed (files _ _ env) path)
                       (sources (config_file goos))).
  { apply IniMore.parseConfig_inr. by exists cfg. }
  unfold runAgent_init.
  destruct (agentInit _ _ env _ os0) as [g1 os1].
  destruct (Service.ret _) as [[e|]|] eqn:Hret; [done| |done].
  by destruct (events_New _ _ env).
Qed.

(** X17.  [runAgent] gets as far as subscribing the handler exactly when
    the first [logger.Init] succeeds, none of the three configuration
    files of the platform is present with text that does not parse,
    [SetState(StateRunning)] returns [nil] and [events.New] succeeds: a
    configuration file that is missing and a metadata request that fails
    never stop the start-up.  It hangs exactly when the first two hold
    and [SetState] blocks.  The error it fails with is the first of:
    logger, configuration (a parse error of one of the three files),
    service state, event manager. *)
Theorem runAgent_subscribes_iff env g0 os0 :
  ((exists a, start env g0 os0 = Subscribed a) <->
   (logger_Init _ _ env = None /\
    Forall (fun path : string => ~ malformed (files _ _ env) path)
           (sources (config_file goos)) /\
    Service.ret (Service.Manager_SetState I svc Service.StateRunning)
    = Service.Returns None /\
    events_New _ _ env = None)) /\
  (start env g0 os0 = Hangs <->
   (logger_Init _ _ env = None /\
    Forall (fun path : string => ~ malformed (files _ _ env) path)
           (sources (config_file goos)) /\
    Service.ret (Service.Manager_SetState I svc Service.StateRunning)
    = Service.Blocks)) /\
  (forall e, start env g0 os0 = Fails e ->
     match e with
     | ErrLogger e' => logger_Init _ _ env = Some e'
     | ErrConfig f e' =>
         logger_Init _ _ env = None /\ f = config_file goos /\
         exists path : string,
           path ∈ sources (config_file goos) /\
           malformed (files _ _ env) path /\ e' = Ini.ErrParse path
     | ErrSetState e' =>
         logger_Init _ _ env = None /\
         Service.ret (Service.Manager_SetState I svc Service.StateRunning)
         = Service.Returns (Some e')
     | ErrEventManager e' =>
         logger_Init _ _ env = None /\
         Service.ret (Service.Manager_SetState I svc Service.StateRunning)
         = Service.Returns None /\
         events_New _ _ env = Some e'
     end).
Proof.
  pose proof (start_cases env g0 os0) as Hcases.
  assert (Hbad : forall e,
            Ini.parseConfig (config_file goos) (files _ _ env) = inl e ->
            ~ Forall (fun path : string => ~ malformed (files _ _ env) path)
                     (sources (config_file goos))).
  { intros e He Hok. apply IniMore.parseConfig_inr in Hok as [cfg Hcfg].
    congruence. }
  split; [|split].
  - split.
    + intros [a Ha]. by rewrite Ha in Hcases.
    + intros (Hlog & Hok & Hret & Hnew).
      destruct (start env g0 os0) as [[e|f e|e|e]| |a];
        [| | | | |by exists a]; exfalso.
      * congruence.
      * destruct Hcases as (_ & _ & He). by eapply Hbad.
      * destruct Hcases as (_ & _ & He). congruence.
      * destruct Hcases as (_ & _ & _ & He). congruence.
      * destruct Hcases as (_ & _ & He). congruence.
  - split.
    + intros Ha. by rewrite Ha in Hcases.
    + intros (Hlog & Hok & Hret).
      destruct (start env g0 os0) as [[e|f e|e|e]| |a]; [| | | |done|];
        exfalso.
      * congruence.
      * destruct Hcases as (_ & _ & He). by eapply Hbad.
      * destruct Hcases as (_ & _ & He). congruence.
      * destruct Hcases as (_ & _ & He & _). congruence.
      * destruct Hcases as (_ & _ & He & _). congruence.
  - intros e He. rewrite He in Hcases. destruct e as [e'|f e'|e'|e'].
    + done.
    + destruct Hcases as (Hlog & -> & Hcfg).
      split; [done|]. split; [done|].
      by destruct (IniMore.parseConfig_inl _ _ _ Hcfg) as [_ ?].
    + by destruct Hcases as (? & _ & ?).
    + by destruct Hcases as (? & _ & ? & ?).
Qed.

End Startup.

(** X18.  With a Windows handler whose status channel is nil (its
    [Execute] has not run), [runAgent] never gets to subscribing the
    handler: unless the logger or the configuration fails first, it
    blocks forever in [SetState(StateRunning)]. *)
Theorem runAgent_blocks_without_status_channel
  (getOSLoginEnabled : option Descriptor -> bool * bool * bool)
  (mdsEvent_WatcherID sshtrustedca_WatcherID : string)
  (emptyDescriptor : Descriptor) (ex : bool) (er : option error)
  (wh : Service.Windows.winService) (env : startup Descriptor OS)
  (g0 : Globals Descriptor) (os0 : OS) :
  Service.Windows.statusChannel wh = false ->
  (forall a,
     runAgent_start Descriptor OS goos getOSLoginEnabled mdsEvent_WatcherID
       sshtrustedca_WatcherID emptyDescriptor
       (Service.Windows.win_handler ex er) {| Service.handler := wh |}
       env g0 os0 <> Subscribed a) /\
  (logger_Init _ _ env = None ->
   Forall (fun path : string => ~ malformed (files _ _ env) path)
          (sources (config_file goos)) ->
   runAgent_start Descriptor OS goos getOSLoginEnabled mdsEvent_WatcherID
     sshtrustedca_WatcherID emptyDescriptor
     (Service.Windows.win_handler ex er) {| Service.handler := wh |}
     env g0 os0 = Hangs).
Proof.
  intros Hch.
  assert (Hret : Service.ret
                   (Service.Manager_SetState (Service.Windows.win_handler ex er)
                      {| Service.handler := wh |} Service.StateRunning)
                 = Service.Blocks).
  { unfold Service.Manager_SetState. simpl.
    unfold Service.Windows.win_SetState, Service.Windows.send. simpl.
    by rewrite Hch. }
  pose proof (start_cases getOSLoginEnabled mdsEvent_WatcherID
                sshtrustedca_WatcherID emptyDescriptor
                (Service.Windows.win_handler ex er)
                {| Service.handler := wh |} env g0 os0) as Hcases.
  split.
  - intros a Ha. rewrite Ha in Hcases.
    destruct Hcases as (_ & _ & Hnil & _). congruence.
  - intros Hlog Hok.
    destruct (runAgent_start _ _ _ _ _ _ _ _ _ _ _ _)
      as [[e|f e|e|e]| |a]; [| | | |done|]; exfalso.
    + congruence.
    + destruct Hcases as (_ & _ & He).
      apply IniMore.parseConfig_inr in Hok as [cfg Hcfg]. congruence.
    + destruct Hcases as (_ & _ & He). congruence.
    + destruct Hcases as (_ & _ & He & _). congruence.
    + destruct Hcases as (_ & _ & He & _). congruence.
Qed.

End Handler.

(** The first goroutine on Linux, after the rounds. *)
Lemma methods_once_in_order_witness :
  tasks (c_pass (runUpdate_after "linux" Example.impl Example.linux_rounds
                   Example.before_first_event [])) !! 0%nat
  = Some {| pc := Finished;
            hist := [CallDisabled "linux" false; CallTimeout false;
                     CallDiff true; Log LogRunning; CallSet None; WgDone] |} /\
  omap method_of [CallDisabled "linux" false; CallTimeout false;
                  CallDiff true; Log LogRunning; CallSet None; WgDone]
  `sublist_of` body.
Proof.
  assert (Ht : tasks (c_pass (runUpdate_after "linux" Example.impl
                                Example.linux_rounds
                                Example.before_first_event [])) !! 0%nat
               = Some {| pc := Finished;
                         hist := [CallDisabled "linux" false;
                                  CallTimeout false; CallDiff true;
                                  Log LogRunning; CallSet None; WgDone] |})
    by (vm_compute; reflexivity).
  split; [exact Ht|].
  exact (methods_once_in_order string (list string) "linux" Example.impl
           Example.linux_rounds Example.before_first_event [] 0%nat _ Ht).
Defined.

(** The goroutine of the clock skew manager on Linux, whose [set]
    fails. *)
Lemma log_lines_match_calls_witness :
  exists t,
    tasks (c_pass (runUpdate_after "linux" Example.impl Example.linux_rounds
                     Example.before_first_event [])) !! 1%nat = Some t /\
    (Log (LogErrorRunning "hwclock: permission denied") ∈ hist t <->
     CallSet (Some "hwclock: permission denied") ∈ hist t).
Proof.
  eexists. split; [vm_compute; reflexivity|].
  refine (proj2 (proj2 (log_lines_match_calls string (list string) "linux"
                          Example.impl Example.linux_rounds
                          Example.before_first_event [] 1%nat _ _)) _).
  vm_compute. reflexivity.
Defined.

(** The four goroutines on Linux, run in rounds until [runUpdate]
    returns. *)
Lemma wait_group_counts_pending_witness :
  main (c_pass (runUpdate_after "linux" Example.impl Example.linux_rounds
                  Example.before_first_event [])) = Returned /\
  wg (c_pass (runUpdate_after "linux" Example.impl Example.linux_rounds
                Example.before_first_event [])) = 0.
Proof.
  assert (Hret : main (c_pass (runUpdate_after "linux" Example.impl
                                 Example.linux_rounds
                                 Example.before_first_event [])) = Returned)
    by (vm_compute; reflexivity).
  split; [exact Hret|].
  destruct (wait_group_counts_pending string (list string) "linux"
              Example.impl Example.linux_rounds Example.before_first_event [])
    as (_ & _ & Hzero).
  exact (Hzero Hret).
Defined.

(** A failed event, then the first event with a snapshot, on Linux. *)
Lemma handler_calls_follow_events_witness :
  handlers Example.subscribed = [] /\
  Forall2 follows
    (deliveries (Deliver Example.failed_event :: Run 0 Main
                   :: Example.first_event))
    (handlers (agent_run "linux" Example.impl
                 (Deliver Example.failed_event :: Run 0 Main
                    :: Example.first_event)
                 Example.subscribed)).
Proof.
  assert (Hnil : handlers Example.subscribed = []) by reflexivity.
  split; [exact Hnil|].
  exact (proj1 (handler_calls_follow_events string (list string) "linux"
                  Example.impl Example.subscribed
                  (Deliver Example.failed_event :: Run 0 Main
                     :: Example.first_event) Hnil)).
Defined.

(** The same events: the data of the failed event is not stored. *)
Lemma snapshots_come_from_events_witness :
  handlers Example.subscribed = [] /\
  accepted (Deliver Example.failed_event :: Run 0 Main
              :: Example.first_event) = ["snapshot-1"] /\
  (newMetadata (globals (agent_run "linux" Example.impl
                           (Deliver Example.failed_event :: Run 0 Main
                              :: Example.first_event)
                           Example.subscribed))
   = newMetadata (globals Example.subscribed) \/
   exists d,
     newMetadata (globals (agent_run "linux" Example.impl
                             (Deliver Example.failed_event :: Run 0 Main
                                :: Example.first_event)
                             Example.subscribed)) = Some d /\
     d ∈ accepted (Deliver Example.failed_event :: Run 0 Main
                     :: Example.first_event)).
Proof.
  assert (Hnil : handlers Example.subscribed = []) by reflexivity.
  split; [exact Hnil|]. split; [reflexivity|].
  exact (proj2 (proj2 (snapshots_come_from_events string (list string)
                         "linux" Example.impl Example.subscribed
                         (Deliver Example.failed_event :: Run 0 Main
                            :: Example.first_event) Hnil))).
Defined.

(** The handler of the first event on Linux, up to the return of its
    [runUpdate]. *)
Lemma handler_alone_snapshots_witness :
  snapshot (Example.snapshot_event "snapshot-1") = Some "snapshot-1" /\
  exists hs,
    handlers (agent_run "linux" Example.impl
                (Deliver (Example.snapshot_event "snapshot-1")
                   :: (Run (length (handlers Example.subscribed))
                         <$> Main :: Example.rounds))
                Example.subscribed)
      !! length (handlers Example.subscribed) = Some hs /\
    follows (Example.snapshot_event "snapshot-1") hs /\
    alone (globals Example.subscribed) "snapshot-1" hs
      (globals (agent_run "linux" Example.impl
                  (Deliver (Example.snapshot_event "snapshot-1")
                     :: (Run (length (handlers Example.subscribed))
                           <$> Main :: Example.rounds))
                  Example.subscribed)).
Proof.
  assert (Hd : snapshot (Example.snapshot_event "snapshot-1")
               = Some "snapshot-1") by reflexivity.
  split; [exact Hd|].
  exact (proj1 (handler_alone_snapshots string (list string) "linux"
                  Example.impl Example.subscribed
                  (Example.snapshot_event "snapshot-1") "snapshot-1"
                  (Main :: Example.rounds) Hd)).
Defined.

(** Start-up on Linux outside systemd with only the template of the
    configuration and no metadata server. *)
Lemma runAgent_subscribes_iff_witness :
  (logger_Init _ _ Example.env = None /\
   Forall (fun path : string => ~ malformed (files _ _ Example.env) path)
          (sources (config_file "linux")) /\
   Service.ret (Service.Manager_SetState
                  (Service.Unix.systemd_handler Example.notify_ok)
                  (Service.Unix.New Example.standalone)
                  Service.StateRunning)
   = Service.Returns None /\
   events_New _ _ Example.env = None) /\
  exists a,
    runAgent_start string (list string) "linux" Example.getOSLoginEnabled
      "metadata-watcher" "ssh-trusted-ca-pipe-watcher" ""
      (Service.Unix.systemd_handler Example.notify_ok)
      (Service.Unix.New Example.standalone) Example.env Example.unset []
    = Subscribed a.
Proof.
  assert (Hok : logger_Init _ _ Example.env = None /\
    Forall (fun path : string => ~ malformed (files _ _ Example.env) path)
           (sources (config_file "linux")) /\
    Service.ret (Service.Manager_SetState
                   (Service.Unix.systemd_handler Example.notify_ok)
                   (Service.Unix.New Example.standalone)
                   Service.StateRunning)
    = Service.Returns None /\
    events_New _ _ Example.env = None).
  { split; [reflexivity|]. split; [|split; reflexivity].
    repeat constructor; unfold malformed; vm_compute; discriminate. }
  split; [exact Hok|].
  exact (proj2 (proj1 (runAgent_subscribes_iff string (list string) "linux"
                         Example.getOSLoginEnabled
                         "metadata-watcher" "ssh-trusted-ca-pipe-watcher" ""
                         (Service.Unix.systemd_handler Example.notify_ok)
                         (Service.Unix.New Example.standalone)
                         Example.env Example.unset [])) Hok).
Defined.

(** Start-up on Windows with a handler on which [Register] was never
    called. *)
Lemma runAgent_blocks_without_status_channel_witness :
  Service.Windows.statusChannel Service.Windows.newServiceHandler = false /\
  runAgent_start string (list string) "windows" Example.getOSLoginEnabled
    "metadata-watcher" "ssh-trusted-ca-pipe-watcher" ""
    (Service.Windows.win_handler true None)
    {| Service.handler := Service.Windows.newServiceHandler |}
    Example.env Example.unset []
  = Hangs.
Proof.
  assert (Hch : Service.Windows.statusChannel
                  Service.Windows.newServiceHandler = false) by reflexivity.
  split; [exact Hch|].
  refine (proj2 (runAgent_blocks_without_status_channel string (list string)
                   "windows" Example.getOSLoginEnabled
                   "metadata-watcher" "ssh-trusted-ca-pipe-watcher" ""
                   true None Service.Windows.newServiceHandler
                   Example.env Example.unset [] Hch) _ _).
  - reflexivity.
  - repeat constructor; unfold malformed; vm_compute; discriminate.
Defined.

End AgentMore.
